(** * codemirror-workspace: document synchronisation and capability routing

  A shallow embedding of the LSP client core of the repository:
  - [utils/event-stream.ts]: the minimal event-stream runtime;
  - [capabilities/completion.ts]: the completion renderers;
  - [workspace.ts]: the [Workspace] orchestrator;
  - the JSON language server that runs in a worker.

  The first part of the file holds the embedding, module by module, in the
  order of the sources; the second and third parts hold the properties. *)

From Stdlib Require Import ZArith QArith Lqa String Ascii List Lia.
From stdpp Require Import base option list functions gmap strings sorting.

Local Open Scope string_scope.
Local Open Scope nat_scope.
Local Open Scope list_scope.

(* ===================================================================== *)
(** * Part I. The embedding                                               *)
(* ===================================================================== *)

(** ** JavaScript values used by the sources *)

Module Js.

(** A string is its sequence of code units; the sources only compare,
    concatenate and measure strings, which [string] does the same way. *)

(** [s.endsWith(suffix)]. *)
Fixpoint endsWith (s suffix : string) : bool :=
  String.eqb s suffix
  || match s with
     | EmptyString => false
     | String _ s' => endsWith s' suffix
     end.

(** [s.startsWith(p)]. *)
Definition startsWith (s p : string) : bool := String.prefix p s.

(** [s.includes(sub)]. *)
Fixpoint includes (s sub : string) : bool :=
  String.prefix sub s
  || match s with
     | EmptyString => false
     | String _ s' => includes s' sub
     end.

(** [s.replace(/^\/+/, "")]: drops the leading run of slashes. *)
Fixpoint stripLeadingSlashes (s : string) : string :=
  match s with
  | String "/" s' => stripLeadingSlashes s'
  | _ => s
  end.

(** Truthiness of a string: every string but the empty one. *)
Definition truthy (s : string) : bool := negb (String.eqb s "").

(** The numbers stored in the version table are integers, or [NaN] once
    an absent entry has been incremented. *)
Inductive number : Type :=
| Num (z : Z)
| NaN.

(** [++o[k]]: the value written back (and returned) by a pre-increment of
    a table entry; [undefined + 1] is [NaN]. *)
Definition preIncrement (v : option number) : number :=
  match v with
  | Some (Num z) => Num (z + 1)
  | Some NaN | None => NaN
  end.

(** A word character of a regular expression: [[A-Za-z0-9_]]. *)
Definition isWordChar (c : ascii) : bool :=
  let n := nat_of_ascii c in
  ((65 <=? n) && (n <=? 90)) || ((97 <=? n) && (n <=? 122))
  || ((48 <=? n) && (n <=? 57)) || (n =? 95).

(** [\b] between the character before (if any) and the rest of the input. *)
Definition boundary (before : option ascii) (rest : string) : bool :=
  let l := match before with Some c => isWordChar c | None => false end in
  let r := match rest with String c _ => isWordChar c | EmptyString => false end in
  xorb l r.

(** Does [\b w \b] match at the head of [s], which comes after
    [before]?  [w] is a non-empty run of word characters. *)
Definition wordAtHead (w : string) (before : option ascii) (s : string) : bool :=
  boundary before s
  && String.prefix w s
  && boundary (String.get (String.length w - 1) w)
              (String.substring (String.length w) (String.length s - String.length w) s).

(** [/\b(?:w1|w2|...)\b/.test(s)]: a match of one of the words at some
    offset of [s]. *)
Fixpoint testWordsAt (ws : list string) (before : option ascii) (s : string) : bool :=
  existsb (fun w => wordAtHead w before s) ws
  || match s with
     | EmptyString => false
     | String c s' => testWordsAt ws (Some c) s'
     end.

Definition testWords (ws : list string) (s : string) : bool :=
  testWordsAt ws None s.

End Js.

(** ** Effects: a state monad over a world [W] with JavaScript exceptions *)

Module Eff.

Inductive result (A : Type) : Type :=
| Ok (a : A)
| Thrown (e : string).
Arguments Ok {A} a.
Arguments Thrown {A} e.

(** A computation runs on a world and leaves a world behind, also when
    it throws: what was mutated before the exception stays mutated. *)
Definition t (W A : Type) : Type := W -> result A * W.

Definition ret {W A} (a : A) : t W A := fun w => (Ok a, w).

Definition throw {W A} (e : string) : t W A := fun w => (Thrown e, w).

Definition bind {W A B} (m : t W A) (k : A -> t W B) : t W B :=
  fun w =>
    match m w with
    | (Ok a, w') => k a w'
    | (Thrown e, w') => (Thrown e, w')
    end.

Definition get {W} : t W W := fun w => (Ok w, w).

Definition modify {W} (f : W -> W) : t W unit := fun w => (Ok tt, f w).

(** The world a computation leaves. *)
Definition exec {W A} (m : t W A) (w : W) : W := snd (m w).

(** [for (const x of xs) body(x)]. *)
Fixpoint forEach {W A} (body : A -> t W unit) (xs : list A) : t W unit :=
  match xs with
  | [] => ret tt
  | x :: xs' => bind (body x) (fun _ => forEach body xs')
  end.

End Eff.

Declare Scope eff_scope.
Delimit Scope eff_scope with eff.
Notation "'let*' x ':=' m 'in' k" :=
(Eff.bind m (fun x => k))
  (at level 10, x pattern, m at level 100, k at level 200) : eff_scope.
Notation "m ';;' k" :=
(Eff.bind m (fun _ => k))
  (at level 100, k at level 200, right associativity) : eff_scope.

(** ** utils/event-stream.ts *)

Module EventStream.

Import Eff.
Local Open Scope eff_scope.

(** [Subscriber<T>]: a callback, run for its effect.

    A [Stream<T>] takes a subscriber and returns the disposer of the
    source's listener.  Every operator below wraps the subscriber it is
    given and hands the wrapped one to the stream it was applied to, so an
    operator is embedded as that wrapping; the variables an operator
    declares per subscription ([prev], the timer, the buffer) extend the
    world of the wrapped subscriber. *)
Definition Subscriber (W T : Type) : Type := T -> Eff.t W unit.

(** [map(transform)(stream)(cb) = stream((x) => cb(transform(x)))]. The
    transform is a JavaScript function: it may act on the world. *)
Definition map {W T U} (transform : T -> Eff.t W U) (cb : Subscriber W U)
  : Subscriber W T :=
  fun x => let* u := transform x in cb u.

(** [tap(effect)]. *)
Definition tap {W T} (effect : T -> Eff.t W unit) (cb : Subscriber W T)
  : Subscriber W T :=
  fun x => effect x ;; cb x.

(** [filter(test)]. *)
Definition filter {W T} (test : T -> Eff.t W bool) (cb : Subscriber W T)
  : Subscriber W T :=
  fun x => let* b := test x in if b then cb x else ret tt.

(** [skipDuplicates(equals)]: the subscription owns [prev : Maybe<T>],
    [null] at first.  [prev] is assigned before [cb(x)] runs, so it is
    kept when [cb] throws. *)
Definition skipDuplicates {W T} (equals : T -> T -> bool) (cb : Subscriber W T)
  : Subscriber (option T * W) T :=
  fun x '(prev, w) =>
    if match prev with
       | None => true
       | Some p => negb (equals p x)
       end
    then let '(r, w') := cb x w in (r, (Some x, w'))
    else (Ok tt, (prev, w)).

(** The source calls its listener once per event; an exception of the
    listener is reported by the host and the next event is delivered. *)
Definition deliver {W T} (cb : Subscriber W T) (xs : list T) (w : W) : W :=
  fold_left (fun w x => exec (cb x) w) xs w.

(** What the host's event loop does to a subscription of a timed
    operator: the source emits a value, or time passes. *)
Inductive Tick (T : Type) : Type :=
| Emit (x : T)
| Elapse (ms : nat).
Arguments Emit {T} x.
Arguments Elapse {T} ms.

(** The variables of one [debouncedBuffer] subscription: the values
    buffered so far and the milliseconds left on the pending timeout. *)
Record Debounced (T : Type) : Type := mkDebounced {
  buffer : list T;
  timeout : option nat;
}.
Arguments mkDebounced {T} buffer timeout.
Arguments buffer {T} d.
Arguments timeout {T} d.

(** Modelled from the spec: [debouncedBuffer(ms)] is imported by
    workspace.ts from utils/event-stream, and the copy of that file under
    src/ only has [debounceTime].  The spec: it behaves like debounce
    (emits after [ms] have elapsed with no new value; each new value
    restarts the timer; never emits synchronously with the source) but
    delivers the entire ordered sequence of values accumulated during the
    quiet period.  The shape follows [debounceTime] of the source: a new
    value clears the pending timeout and sets a new one. *)
Definition debouncedBuffer {W T} (ms : nat) (cb : Subscriber W (list T))
  : Tick T -> Debounced T * W -> Debounced T * W :=
  fun tick '(d, w) =>
    match tick with
    | Emit x => (mkDebounced (buffer d ++ [x]) (Some ms), w)
    | Elapse dt =>
        match timeout d with
        | Some remaining =>
            if remaining <=? dt
            then (mkDebounced [] None, exec (cb (buffer d)) w)
            else (mkDebounced (buffer d) (Some (remaining - dt)), w)
        | None => (d, w)
        end
    end.

Definition run {W T S} (step : Tick T -> S * W -> S * W) (ticks : list (Tick T))
  (sw : S * W) : S * W :=
  fold_left (fun sw tick => step tick sw) ticks sw.

(** A burst: a first value, then values that each come [gap] ms after
    the one before, then [quiet] ms in which nothing comes. *)
Definition burst {T} (first : T) (rest : list (nat * T)) (quiet : nat)
  : list (Tick T) :=
  Emit first :: flat_map (fun '(gap, x) => [Elapse gap; Emit x]) rest ++ [Elapse quiet].

(** A subscriber that records what it receives, oldest first. *)
Definition record {T} : Subscriber (list T) T :=
  fun x => modify (fun log => log ++ [x]).

(** The values a fresh subscription of [skipDuplicates(equals)] passes on
    when the source emits [xs], and the [prev] it is left with. *)
Definition emitted {T} (equals : T -> T -> bool) (xs : list T) : list T :=
  snd (deliver (skipDuplicates equals record) xs (None, [])).

Definition prevAfter {T} (equals : T -> T -> bool) (xs : list T) : option T :=
  fst (deliver (skipDuplicates equals record) xs (None, [])).

(** A sequence in which no value is [equals] to the one before it. *)
Definition changing {T} (equals : T -> T -> bool) (l : list T) : Prop :=
  forall i a b, l !! i = Some a -> l !! S i = Some b -> equals a b = false.

(** [debounceTime(ms)]: the subscription owns [timeout].  A pending
    timeout is the milliseconds left on it and the value its callback
    [() => cb(x)] holds; a value from the source clears it and sets a new
    one, and nothing is handed on before it fires.  The handle of a
    timeout that has fired is cleared to no effect, like [null]. *)
Definition debounceTime {W T} (ms : nat) (cb : Subscriber W T)
  : Tick T -> option (nat * T) * W -> option (nat * T) * W :=
  fun tick '(pending, w) =>
    match tick with
    | Emit x => (Some (ms, x), w)
    | Elapse dt =>
        match pending with
        | Some (remaining, x) =>
            if remaining <=? dt then (None, exec (cb x) w)
            else (Some (remaining - dt, x), w)
        | None => (None, w)
        end
    end.

(** The value a burst ends with. *)
Definition lastOf {T} (first : T) (rest : list (nat * T)) : T :=
  List.last (List.map snd rest) first.

End EventStream.

(** ** The editor, as the core uses it *)

Module CodeMirror.

Record Position : Type := mkPosition { line : nat; ch : nat }.

(** A selection range: [from()] and [to()]. *)
Record Range : Type := mkRange { from : Position; to : Position }.

(** [getTokenAt]'s result; [type] is [null] for plain text. *)
Record Token : Type := mkToken {
  tok_type : option string;
  tok_string : string;
  tok_start : nat;
  tok_end : nat;
}.

(** One change object of a ["changes"] event. [text] is the inserted
    text, one string per line. *)
Record EditorChange : Type := mkEditorChange {
  origin : option string;
  text : list string;
  removed : list string;
  change_from : Position;
  change_to : Position;
}.

(** What an editor has registered and a disposer can take back: a handler
    of [on]/[off], a listener on the wrapper element, a key map.  The
    number tells the function objects apart. *)
Inductive Registration : Type :=
| Handler (type : string) (id : nat)
| DomListener (type : string) (id : nat)
| KeyMap (id : nat).

#[global] Instance Registration_eq_dec : EqDecision Registration.
Proof. solve_decision. Defined.

Section Editor.

(** [H] is what the show-hint addon is handed. *)
Context {H : Type}.

Record Editor : Type := mkEditor {
  getValue : string;
  getCursor : Position;
  getTokenAt : Position -> Token;
  getRange : Position -> Position -> string;
  (** [state.completionActive]: the open completion popup. *)
  completionActive : option H;
  (** The other transient surfaces, owned by the renderers. *)
  signatureHelpShown : bool;
  hoverInfoShown : bool;
  highlightsShown : bool;
  diagnosticsShown : bool;
  registrations : list Registration;
}.

Definition setValue (v : string) (cm : Editor) : Editor :=
  mkEditor v (getCursor cm) (getTokenAt cm) (getRange cm)
    (completionActive cm) (signatureHelpShown cm) (hoverInfoShown cm)
    (highlightsShown cm) (diagnosticsShown cm) (registrations cm).

Definition setCompletionActive (c : option H) (cm : Editor) : Editor :=
  mkEditor (getValue cm) (getCursor cm) (getTokenAt cm) (getRange cm)
    c (signatureHelpShown cm) (hoverInfoShown cm)
    (highlightsShown cm) (diagnosticsShown cm) (registrations cm).

Definition setSignatureHelpShown (b : bool) (cm : Editor) : Editor :=
  mkEditor (getValue cm) (getCursor cm) (getTokenAt cm) (getRange cm)
    (completionActive cm) b (hoverInfoShown cm)
    (highlightsShown cm) (diagnosticsShown cm) (registrations cm).

Definition setHoverInfoShown (b : bool) (cm : Editor) : Editor :=
  mkEditor (getValue cm) (getCursor cm) (getTokenAt cm) (getRange cm)
    (completionActive cm) (signatureHelpShown cm) b
    (highlightsShown cm) (diagnosticsShown cm) (registrations cm).

Definition setHighlightsShown (b : bool) (cm : Editor) : Editor :=
  mkEditor (getValue cm) (getCursor cm) (getTokenAt cm) (getRange cm)
    (completionActive cm) (signatureHelpShown cm) (hoverInfoShown cm)
    b (diagnosticsShown cm) (registrations cm).

Definition setDiagnosticsShown (b : bool) (cm : Editor) : Editor :=
  mkEditor (getValue cm) (getCursor cm) (getTokenAt cm) (getRange cm)
    (completionActive cm) (signatureHelpShown cm) (hoverInfoShown cm)
    (highlightsShown cm) b (registrations cm).

Definition setRegistrations (rs : list Registration) (cm : Editor) : Editor :=
  mkEditor (getValue cm) (getCursor cm) (getTokenAt cm) (getRange cm)
    (completionActive cm) (signatureHelpShown cm) (hoverInfoShown cm)
    (highlightsShown cm) (diagnosticsShown cm) rs.

(** [on], [addEventListener], [addKeyMap]. *)
Definition register (r : Registration) (cm : Editor) : Editor :=
  setRegistrations (registrations cm ++ [r]) cm.

(** [off], [removeEventListener], [removeKeyMap]: nothing happens when
    the function is not registered. *)
Definition unregister (r : Registration) (cm : Editor) : Editor :=
  setRegistrations (List.filter (fun r' => bool_decide (r' <> r)) (registrations cm)) cm.

End Editor.

Arguments Editor H : clear implicits.

End CodeMirror.

(** ** capabilities/completion.ts *)

Module Completion.

Import CodeMirror.

(** The fields of an LSP [CompletionItem] the renderer reads. *)
Record CompletionItem : Type := mkItem {
  label : string;
  filterText : option string;
}.

(** One entry of the popup: [render] and [data] are computed from the
    item, which stands for them here. *)
Record Hint : Type := mkHint {
  hint_text : string;
  displayText : string;
  hint_item : CompletionItem;
}.

Record Hints : Type := mkHints {
  hints_from : Position;
  hints_to : Position;
  hints_list : list Hint;
}.

Definition rowOf (L : list nat * list nat) (b : bool) : list nat :=
  if b then snd L else fst L.

Definition setRow (L : list nat * list nat) (b : bool) (r : list nat)
  : list nat * list nat :=
  if b then (fst L, r) else (r, snd L).

Definition charEq (a b : option ascii) : bool :=
  match a, b with
  | Some c, Some d => Ascii.eqb c d
  | None, None => true
  | _, _ => false
  end.

(** The body of the inner loop: the assignment to [L[b][j]]. *)
Definition lcsCell (x y : string) (i : nat) (b : bool)
  (L : list nat * list nat) (j : nat) : list nat * list nat :=
  let v :=
    if (i =? 0) || (j =? 0) then 0
    else if charEq (String.get (i - 1) x) (String.get (j - 1) y)
         then rowOf L (negb b) !!! (j - 1) + 1
         else Nat.max (rowOf L (negb b) !!! j) (rowOf L b !!! (j - 1)) in
  setRow L b (<[j := v]> (rowOf L b)).

(** [lcs]: the length of a longest common subsequence, on two rows. The
    state of the outer loop is [L] and [b]. *)
Definition lcs (x y : string) : nat :=
  let m := String.length x in
  let n := String.length y in
  let zs := repeat 0 (n + 1) in
  let '(L, b) :=
    fold_left
      (fun '(L, _) i =>
         let b := Nat.odd i in
         (fold_left (lcsCell x y i b) (seq 0 (n + 1)) L, b))
      (seq 0 (m + 1)) ((zs, zs), false) in
  rowOf L b !!! n.

(** [lcsScore]. The quotient [1 / item.length] is kept exact. *)
Definition lcsScore (item typed : string) : Q :=
  if (String.length item =? 0) || (String.length typed =? 0) then 0%Q
  else if Js.includes item typed
       then (inject_Z (Z.of_nat (String.length typed))
             + 1 / inject_Z (Z.of_nat (String.length item)))%Q
       else inject_Z (Z.of_nat
              (if String.length item <? String.length typed
               then lcs typed item else lcs item typed)).

(** [item.filterText || item.label]: an empty filter text is falsy. *)
Definition filterTextOrLabel (item : CompletionItem) : string :=
  match filterText item with
  | Some f => if Js.truthy f then f else label item
  | None => label item
  end.

(** [Array.prototype.sort(compare)], which is stable: an element goes
    before the first one it must precede. *)
Fixpoint insertBy {A} (compare : A -> A -> Q) (a : A) (l : list A) : list A :=
  match l with
  | [] => [a]
  | b :: l' =>
      if Qle_bool (compare a b) 0 then a :: l else b :: insertBy compare a l'
  end.

Definition sortBy {A} (compare : A -> A -> Q) (l : list A) : list A :=
  foldr (insertBy compare) [] l.

(** The [scores] object built by the [reduce]: one entry per label, the
    last item with a label writes it. *)
Definition scoresOf (items : list CompletionItem) (typed : string) : gmap string Q :=
  fold_left
    (fun o item => <[label item := lcsScore (filterTextOrLabel item) typed]> o)
    items ∅.

(** [scores[l]]; every label of [items] is a key, so nothing is read
    that was not written. *)
Definition scoreAt (scores : gmap string Q) (l : string) : Q :=
  default 0%Q (scores !! l).

Definition filteredItems (items : list CompletionItem) (typed : string)
  (maxItems : nat) : list CompletionItem :=
  let scores := scoresOf items typed in
  take maxItems
    (sortBy (fun a b => (scoreAt scores (label b) - scoreAt scores (label a))%Q) items).

Definition toHint (item : CompletionItem) : Hint :=
  mkHint (label item) (label item) item.

(** [editor.showHint({hint})]: the addon opens the popup on what [hint()]
    returns. *)
Definition showHint (hints : Hints) (cm : Editor Hints) : Editor Hints :=
  setCompletionActive (Some hints) cm.

Definition showInvokedCompletions (items : list CompletionItem) (wordRange : Range)
  (cm : Editor Hints) : Editor Hints :=
  if length items =? 0 then cm
  else
    let typed := getRange cm (from wordRange) (to wordRange) in
    let filtered := filteredItems items typed 30 in
    showHint (mkHints (from wordRange) (to wordRange) (List.map toHint filtered)) cm.

Definition showTriggeredCompletions (items : list CompletionItem)
  (cursorPosition : Position) (cm : Editor Hints) : Editor Hints :=
  if length items =? 0 then cm
  else showHint (mkHints cursorPosition cursorPosition (List.map toHint items)) cm.

(** [hideCompletions]: [completionActive.close()] leaves no popup. *)
Definition hideCompletions (cm : Editor Hints) : Editor Hints :=
  match completionActive cm with
  | Some _ => setCompletionActive None cm
  | None => cm
  end.

(** The score of an item by itself. *)
Definition ownScore (typed : string) (item : CompletionItem) : Q :=
  lcsScore (filterTextOrLabel item) typed.

(** The score the sort reads for an item: the one under its label. *)
Definition tableScore (items : list CompletionItem) (typed : string)
  (item : CompletionItem) : Q :=
  scoreAt (scoresOf items typed) (label item).

(** The characters of a string, in order. *)
Definition chars (s : string) : list ascii := list_ascii_of_string s.

(** The textbook recurrence for the length of a longest common
    subsequence, on two lists read from their heads: what the loop of
    [lcs] is compared with. *)
Fixpoint lcsLength (u v : list ascii) : nat :=
  match u with
  | [] => 0
  | a :: u' =>
      (fix along (v : list ascii) : nat :=
         match v with
         | [] => 0
         | b :: v' =>
             if Ascii.eqb a b then S (lcsLength u' v')
             else Nat.max (lcsLength u' v) (along v')
         end) v
  end.

(** The cell [(i, j)] of the full table: the recurrence on the first [i]
    characters of [x] and the first [j] of [y], read from their ends. *)
Definition cell (x y : string) (i j : nat) : nat :=
  lcsLength (reverse (take i (chars x))) (reverse (take j (chars y))).

End Completion.

(** ** The protocol, as far as the core speaks it *)

Module Lsp.

Import CodeMirror.

Inductive CompletionTriggerKind : Type :=
| Invoked
| TriggerCharacter
| TriggerForIncompleteCompletions.

Inductive SignatureHelpTriggerKind : Type :=
| SignatureInvoked
| SignatureTriggerCharacter
| SignatureContentChange.

Inductive TextDocumentSaveReason : Type :=
| Manual
| AfterDelay
| FocusOut.

Record CompletionContext : Type := mkCompletionContext {
  triggerKind : CompletionTriggerKind;
  triggerCharacter : option string;
}.

Record SignatureHelpContext : Type := mkSignatureHelpContext {
  sh_triggerKind : SignatureHelpTriggerKind;
  sh_triggerCharacter : option string;
  isRetrigger : bool;
}.

(** An entry of [contentChanges]: a changed range, or the whole text. *)
Inductive TextDocumentContentChangeEvent : Type :=
| Incremental (range : Range) (rangeLength : nat) (text : string)
| Full (text : string).

Record TextEdit : Type := mkTextEdit {
  edit_range : Range;
  newText : string;
}.

(** What the server declared at the handshake. *)
Record ServerCapabilities : Type := mkServerCapabilities {
  syncsIncrementally : bool;
  completionTriggers : list string;
  signatureHelpTriggers : list string;
  signatureHelpRetriggers : list string;
}.

(** An [LspConnection] object: [conn] tells the objects apart. *)
Record LspConnection : Type := mkLspConnection {
  conn : nat;
  capabilities : ServerCapabilities;
}.

(** The methods of [LspConnection] the workspace calls, with their
    parameters. *)
Inductive Method : Type :=
| onClose (serverId : string)
| listen
| initialize (rootUri : string) (markdown : bool)
| initialized
| onDiagnostics
| textDocumentOpened (uri languageId text : string) (version : Js.number)
| textDocumentChanged (uri : string) (version : Js.number)
    (contentChanges : list TextDocumentContentChangeEvent)
| textDocumentClosed (uri : string)
| textDocumentWillSave (uri : string) (reason : TextDocumentSaveReason)
| getEditsBeforeSave (uri : string) (reason : TextDocumentSaveReason)
| textDocumentSaved (uri text : string)
| getCompletion (uri : string) (position : Position) (context : CompletionContext)
| getSignatureHelp (uri : string) (position : Position) (context : SignatureHelpContext).

End Lsp.

(** ** workspace.ts *)

Module Workspace.

Import Eff CodeMirror Lsp.
Local Open Scope eff_scope.

(** Changes stream emits at most once per 50ms. *)
Definition CHANGES_FRAME : nat := 50.

Record LanguageAssociation : Type := mkLanguageAssociation {
  languageId : string;
  languageServerIds : list string;
}.

(** An editor object, by identity. *)
Abbreviation EditorRef := nat (only parsing).

(** A disposer: the registration it takes back, and on which editor. *)
Abbreviation Disposer := (nat * Registration)%type (only parsing).

(** What the workspace does to the world around it, in order.  [Delay]
    is an [await delay(ms)] of utils/promise. *)
Inductive Effect : Type :=
| Call (conn : nat) (m : Method)
| NewWebSocket (url : string) (transport : nat)
| NewWorker (script : string) (transport : nat)
| HideCompletions (editor : EditorRef)
| RemoveSignatureHelp (editor : EditorRef)
| RemoveDiagnostics (editor : EditorRef)
| RemoveHoverInfo (editor : EditorRef)
| RemoveHighlights (editor : EditorRef)
| Disposed (d : Disposer)
| AppliedEdits (editor : EditorRef) (edits : list TextEdit)
| Delay (ms : nat).

(** The fields of a [Workspace] and, below them, what lies outside the
    object: the editors, the trace of effects and the next fresh
    identity. *)
Record State : Type := mkState {
  editors : gmap string EditorRef;
  connections : gmap string LspConnection;
  documentVersions : gmap string Js.number;
  subscriptionDisposers : gmap EditorRef (list Disposer);
  canHandleMarkdown : bool;
  rootUri : string;
  heap : EditorRef -> Editor Completion.Hints;
  trace : list Effect;
  fresh : nat;
}.

Definition setEditors f (s : State) : State :=
  mkState (f (editors s)) (connections s) (documentVersions s)
    (subscriptionDisposers s) (canHandleMarkdown s) (rootUri s)
    (heap s) (trace s) (fresh s).

Definition setConnections f (s : State) : State :=
  mkState (editors s) (f (connections s)) (documentVersions s)
    (subscriptionDisposers s) (canHandleMarkdown s) (rootUri s)
    (heap s) (trace s) (fresh s).

Definition setDocumentVersions f (s : State) : State :=
  mkState (editors s) (connections s) (f (documentVersions s))
    (subscriptionDisposers s) (canHandleMarkdown s) (rootUri s)
    (heap s) (trace s) (fresh s).

Definition setSubscriptionDisposers f (s : State) : State :=
  mkState (editors s) (connections s) (documentVersions s)
    (f (subscriptionDisposers s)) (canHandleMarkdown s) (rootUri s)
    (heap s) (trace s) (fresh s).

Definition setHeap f (s : State) : State :=
  mkState (editors s) (connections s) (documentVersions s)
    (subscriptionDisposers s) (canHandleMarkdown s) (rootUri s)
    (f (heap s)) (trace s) (fresh s).

Definition setTrace f (s : State) : State :=
  mkState (editors s) (connections s) (documentVersions s)
    (subscriptionDisposers s) (canHandleMarkdown s) (rootUri s)
    (heap s) (f (trace s)) (fresh s).

Definition setFresh f (s : State) : State :=
  mkState (editors s) (connections s) (documentVersions s)
    (subscriptionDisposers s) (canHandleMarkdown s) (rootUri s)
    (heap s) (trace s) (f (fresh s)).

(** The functions the workspace is given in its options, and the helpers
    it imports from files that are not under src/. *)
Record Host : Type := mkHost {
  (** Options: the resolved connection string of a server, empty when
      there is none. *)
  getConnectionString : string -> string;
  getLanguageAssociation : string -> option LanguageAssociation;
  (** utils/conversions. *)
  lspPosition : Position -> Position;
  lspChange : EditorChange -> TextDocumentContentChangeEvent;
  (** utils/editor: the editor after [applyEdits(editor, edits, origin)]. *)
  applyEdits : list TextEdit -> Editor Completion.Hints -> Editor Completion.Hints;
  (** What the server behind a connection string declares. *)
  serverCapabilities : string -> ServerCapabilities;
  (** Whether the renderers of capabilities/ that are not under src/
      return, rather than throw, when handed [undefined] for the editor. *)
  renderersAcceptUndefined : bool;
}.

(** [constructor(options)]. *)
Definition new (options_rootUri : string) (renderMarkdown : bool)
  (world : EditorRef -> Editor Completion.Hints) : State :=
  mkState ∅ ∅ ∅ ∅ renderMarkdown
    (options_rootUri
     +:+ (if negb (Js.endsWith options_rootUri "/") then "/" else ""))
    world [] 0.

Definition getDocumentUri (s : State) (path : string) : string :=
  rootUri s +:+ Js.stripLeadingSlashes path.

(** *** Acting on the world *)

Definition emit (e : Effect) : Eff.t State unit :=
  modify (setTrace (fun t => t ++ [e])).

Definition call (c : LspConnection) (m : Method) : Eff.t State unit :=
  emit (Call (conn c) m).

Definition readEditor (editor : EditorRef) : Eff.t State (Editor Completion.Hints) :=
  fun s => (Ok (heap s editor), s).

(** The state in which [editor] has become [f editor]. *)
Definition updated (editor : EditorRef)
  (f : Editor Completion.Hints -> Editor Completion.Hints) (s : State) : State :=
  setHeap (fun h => <[editor := f (h editor)]> h) s.

Definition updateEditor (editor : EditorRef)
  (f : Editor Completion.Hints -> Editor Completion.Hints) : Eff.t State unit :=
  modify (updated editor f).

(** [++this.documentVersions[uri]]. *)
Definition nextVersion (uri : string) : Eff.t State Js.number :=
  fun s =>
    let v := Js.preIncrement (documentVersions s !! uri) in
    (Ok v, setDocumentVersions <[uri := v]> s).

(** *** The renderers *)

(** capabilities/completion: [hideCompletions]. *)
Definition hideCompletions (editor : EditorRef) : Eff.t State unit :=
  emit (HideCompletions editor) ;;
  updateEditor editor Completion.hideCompletions.

(** Modelled from the spec: [removeSignatureHelp] is imported from
    capabilities/, of which only the completion file is under src/.  The
    spec: the renderers own the transient UI state, and the core suppresses
    it through them; this one leaves no signature help shown. *)
Definition removeSignatureHelp (editor : EditorRef) : Eff.t State unit :=
  emit (RemoveSignatureHelp editor) ;;
  updateEditor editor (setSignatureHelpShown false).

(** Modelled from the spec: [removeDiagnostics], of capabilities/, clears
    the diagnostics shown on the editor. *)
Definition removeDiagnostics (editor : EditorRef) : Eff.t State unit :=
  emit (RemoveDiagnostics editor) ;;
  updateEditor editor (setDiagnosticsShown false).

(** Modelled from the spec: [removeHoverInfo], of capabilities/, clears
    the hover box. *)
Definition removeHoverInfo (editor : EditorRef) : Eff.t State unit :=
  emit (RemoveHoverInfo editor) ;;
  updateEditor editor (setHoverInfoShown false).

(** Modelled from the spec: [removeHighlights], of capabilities/, clears
    the highlight decorations. *)
Definition removeHighlights (editor : EditorRef) : Eff.t State unit :=
  emit (RemoveHighlights editor) ;;
  updateEditor editor (setHighlightsShown false).

(** A renderer called on [this.editors[uri]], which is [undefined] when
    the table has no entry.  [hideCompletions] reads [editor.state] and
    throws a [TypeError] then; what the others do is the host's
    [renderersAcceptUndefined]. *)
Definition onEditor (acceptsUndefined : bool) (editor : option EditorRef)
  (renderer : EditorRef -> Eff.t State unit) : Eff.t State unit :=
  match editor with
  | Some e => renderer e
  | None => if acceptsUndefined then ret tt else throw "TypeError"
  end.

(** *** connect *)

(** [/^wss?:\/\//.test(connectionString)]. *)
Definition isWebSocketUrl (connectionString : string) : bool :=
  Js.startsWith connectionString "ws://" || Js.startsWith connectionString "wss://".

(** A call of the asynchronous [connect], between two of its steps: it is
    suspended at one of its three [await]s, or it has returned. *)
Inductive Connecting : Type :=
| AwaitConnectionString (serverId : string)
| AwaitMessageConnection (serverId connectionString : string) (transport : nat)
| AwaitInitialize (serverId : string) (c : LspConnection)
| Connected (result : option LspConnection).

(** The call itself runs up to the first [await]. *)
Definition connect (serverId : string) : State -> Connecting * State :=
  fun s =>
    match connections s !! serverId with
    | Some existing => (Connected (Some existing), s)
    | None => (AwaitConnectionString serverId, s)
    end.

(** The host resumes a suspended call, which runs up to its next [await]
    or to its [return]. *)
Definition resume (h : Host) (k : Connecting) : State -> Connecting * State :=
  fun s =>
    match k with
    | AwaitConnectionString serverId =>
        let connectionString := getConnectionString h serverId in
        if negb (Js.truthy connectionString) then (Connected None, s)
        else
          let transport := fresh s in
          let s := setFresh S s in
          let s :=
            exec (emit (if isWebSocketUrl connectionString
                        then NewWebSocket connectionString transport
                        else NewWorker connectionString transport)) s in
          (AwaitMessageConnection serverId connectionString transport, s)
    | AwaitMessageConnection serverId connectionString transport =>
        let c := mkLspConnection transport (serverCapabilities h connectionString) in
        let s := setConnections <[serverId := c]> s in
        let s :=
          exec (call c (onClose serverId) ;;
                call c listen ;;
                call c (initialize (rootUri s) (canHandleMarkdown s))) s in
        (AwaitInitialize serverId c, s)
    | AwaitInitialize serverId c =>
        let s := exec (call c initialized ;; call c onDiagnostics) s in
        (Connected (Some c), s)
    | Connected result => (Connected result, s)
    end.

(** The handler given to [conn.onClose]. *)
Definition closed (serverId : string) (s : State) : State :=
  setConnections (delete serverId) s.

(** Several calls in flight: the host resumes them one at a time, in the
    order of [schedule]. *)
Definition resumeAt (h : Host) (i : nat) (ks : list Connecting) (s : State)
  : list Connecting * State :=
  match ks !! i with
  | Some k => let '(k', s') := resume h k s in (<[i := k']> ks, s')
  | None => (ks, s)
  end.

Definition interleave (h : Host) (schedule : list nat) (ks : list Connecting)
  (s : State) : list Connecting * State :=
  fold_left (fun '(ks, s) i => resumeAt h i ks s) schedule (ks, s).

(** *** openTextDocument and addEventHandlers *)

(** A disposer, called: the function is taken off the editor. *)
Definition dispose (d : Disposer) : Eff.t State unit :=
  emit (Disposed d) ;;
  updateEditor (fst d) (unregister (snd d)).

(** Modelled from the spec: [onEditorEvent] is imported from events, which
    is not under src/; like every subscription of the spec, and like
    [fromEditorEvent] of the source, it registers its handler and returns
    the disposer that takes it back.  With it, these are the seven
    registrations of [addEventHandlers], in the order of the pushes to
    [disposers]; [n] is the first of their identities. *)
Definition registrationsFrom (n : nat) : list Registration :=
  [ Handler "changes" n;
    Handler "cursorActivity" (n + 1);
    DomListener "mouseover" (n + 2);
    Handler "cmw:contextMenuOpened" (n + 3);
    Handler "cmw:contextMenuClosed" (n + 4);
    Handler "contextmenu" (n + 5);
    KeyMap (n + 6) ].

Definition addEventHandlers (uri : string) (editor : EditorRef) (c : LspConnection)
  : Eff.t State unit :=
  let* n := (fun s => (Ok (fresh s), setFresh (fun k => k + 7) s)) in
  let registered := registrationsFrom n in
  forEach (fun r => updateEditor editor (register r)) registered ;;
  modify (setSubscriptionDisposers
            <[editor := List.map (pair editor) registered]>).

(** [openTextDocument(path, editor)], with [connected] the value
    [await this.connect(serverId)] resolves to.  Nothing before the
    [await] reads a table, and the body after it has no other [await]. *)
Definition openTextDocument (h : Host) (path : string) (editor : EditorRef)
  (connected : option LspConnection) : Eff.t State unit :=
  let* s := get in
  let uri := getDocumentUri s path in
  match getLanguageAssociation h uri with
  | None => ret tt
  | Some assoc =>
      match head (languageServerIds assoc) with
      | None => ret tt
      | Some serverId =>
          if negb (Js.truthy serverId) then ret tt
          else
            match connected with
            | None => ret tt
            | Some c =>
                modify (setEditors <[uri := editor]>) ;;
                modify (setDocumentVersions <[uri := Js.Num 0]>) ;;
                let* cm := readEditor editor in
                let* version := nextVersion uri in
                call c (textDocumentOpened uri (languageId assoc) (getValue cm) version) ;;
                addEventHandlers uri editor c
            end
      end
  end.

(** *** The change stream of addEventHandlers *)

(** The arguments of a ["changes"] event: [[cm, changes]]. *)
Abbreviation ChangesEvent := (nat * list EditorChange)%type (only parsing).

(** The [map] stage: one [didChange] for the buffered events, then the
    editor and the last change object ([undefined] when the last event
    has none). *)
Definition changesTransform (h : Host) (uri : string) (c : LspConnection)
  (buffered : list ChangesEvent) : Eff.t State (EditorRef * option EditorChange) :=
  match buffered with
  | [] => throw "TypeError"
  | (cm, _) :: _ =>
      let* version := nextVersion uri in
      let* editor := readEditor cm in
      call c (textDocumentChanged uri version
                (if syncsIncrementally (capabilities c)
                 then flat_map (fun '(_, cs) => List.map (lspChange h) cs) buffered
                 else [Full (getValue editor)])) ;;
      let lastChanges := match last buffered with Some (_, cs) => cs | None => [] end in
      ret (cm, last lastChanges)
  end.

(** The test of the [filter] stage, [true] for text that was removed. *)
Definition textRemoved (change : EditorChange) : bool :=
  match origin change with
  | Some o => String.eqb o "+delete"
  | None => false
  end
  || forallb (fun s => String.length s =? 0) (text change).

Definition changesFilter (x : EditorRef * option EditorChange) : Eff.t State bool :=
  match x with
  | (_, None) => throw "TypeError"
  | (cm, Some change) =>
      if textRemoved change
      then hideCompletions cm ;; removeSignatureHelp cm ;; ret false
      else ret true
  end.

(** [token.type && /\b(?:variable|property|type)\b/.test(token.type)]. *)
Definition identifierLike (token : Token) : bool :=
  match tok_type token with
  | Some t => Js.truthy t && Js.testWords ["variable"; "property"; "type"] t
  | None => false
  end.

(** [triggers.includes(triggerCharacter)]; [undefined] is in no list of
    strings. *)
Definition includes (triggers : list string) (triggerCharacter : option string) : bool :=
  match triggerCharacter with
  | Some c => existsb (String.eqb c) triggers
  | None => false
  end.

(** The subscriber of the change stream. The requests it issues are
    answered later; their [then] callbacks are no part of it.  The change
    object is first read after the test of the token. *)
Definition changesSubscriber (h : Host) (uri : string) (c : LspConnection)
  (x : EditorRef * option EditorChange) : Eff.t State unit :=
  let '(cm, change) := x in
  let* editor := readEditor cm in
  let pos := getCursor editor in
  let token := getTokenAt editor pos in
  if identifierLike token then
    removeSignatureHelp cm ;;
    call c (getCompletion uri (lspPosition h pos)
              (mkCompletionContext Invoked None))
  else
    match change with
    | None => throw "TypeError"
    | Some change =>
        let triggerCharacter := last (text change) in
        if includes (completionTriggers (capabilities c)) triggerCharacter then
          removeSignatureHelp cm ;;
          call c (getCompletion uri (lspPosition h pos)
                    (mkCompletionContext TriggerCharacter triggerCharacter))
        else if includes (signatureHelpTriggers (capabilities c)) triggerCharacter
                || includes (signatureHelpRetriggers (capabilities c)) triggerCharacter
        then
          hideCompletions cm ;;
          removeSignatureHelp cm ;;
          call c (getSignatureHelp uri (lspPosition h pos)
                    (mkSignatureHelpContext SignatureTriggerCharacter triggerCharacter false))
        else
          hideCompletions cm ;;
          removeSignatureHelp cm
    end.

(** What the change stream does with one delivery of the buffer:
    [map], [filter], subscriber. *)
Definition onChanges (h : Host) (uri : string) (c : LspConnection)
  : EventStream.Subscriber State (list ChangesEvent) :=
  EventStream.map (changesTransform h uri c)
    (EventStream.filter changesFilter (changesSubscriber h uri c)).

(** [changeStream(subscriber)], driven by the editor's events and by time. *)
Definition changeStream (h : Host) (uri : string) (c : LspConnection)
  : EventStream.Tick ChangesEvent ->
    EventStream.Debounced ChangesEvent * State ->
    EventStream.Debounced ChangesEvent * State :=
  EventStream.debouncedBuffer CHANGES_FRAME (onChanges h uri c).

(** *** closeTextDocument and removeEventHandlers *)

Definition removeEventHandlers (h : Host) (editor : option EditorRef)
  : Eff.t State unit :=
  let* s := get in
  (* [WeakMap.get(undefined)] is [undefined] *)
  match editor ≫= (fun e => subscriptionDisposers s !! e) with
  | Some disposers =>
      forEach dispose disposers ;;
      modify (setSubscriptionDisposers
                (fun m => match editor with Some e => delete e m | None => m end))
  | None => ret tt
  end ;;
  onEditor (renderersAcceptUndefined h) editor removeDiagnostics ;;
  onEditor (renderersAcceptUndefined h) editor removeHoverInfo ;;
  onEditor (renderersAcceptUndefined h) editor removeHighlights ;;
  onEditor false editor hideCompletions ;;
  onEditor (renderersAcceptUndefined h) editor removeSignatureHelp.

Definition closeTextDocument (h : Host) (path : string) : Eff.t State unit :=
  let* s := get in
  let uri := getDocumentUri s path in
  match getLanguageAssociation h uri with
  | None => ret tt
  | Some assoc =>
      match head (languageServerIds assoc) with
      | None => ret tt
      | Some serverId =>
          if negb (Js.truthy serverId) then ret tt
          else
            match connections s !! serverId with
            | None => ret tt
            | Some c =>
                let editor := editors s !! uri in
                modify (setEditors (delete uri)) ;;
                modify (setDocumentVersions (delete uri)) ;;
                removeEventHandlers h editor ;;
                call c (textDocumentClosed uri)
            end
      end
  end.

(** *** saveTextDocument *)

(** [CHANGES_FRAME * 1.5], which is the integer 75. *)
Definition saveDelay : nat := CHANGES_FRAME * 3 / 2.

(** A call of the asynchronous [saveTextDocument]: suspended on the
    pre-save edits, suspended on the delay, or returned. *)
Inductive Saving : Type :=
| AwaitEdits (uri : string) (c : LspConnection) (editor : EditorRef)
| AwaitDelay (uri : string) (c : LspConnection) (editor : EditorRef)
| Saved.

(** [conn.textDocumentSaved({textDocument: {uri}, text: editor.getValue()})]. *)
Definition sendSaved (uri : string) (c : LspConnection) (editor : EditorRef)
  : Eff.t State unit :=
  let* cm := readEditor editor in
  call c (textDocumentSaved uri (getValue cm)).

(** The call, up to [await conn.getEditsBeforeSave(...)]. *)
Definition saveTextDocument (h : Host) (path : string) : Eff.t State Saving :=
  let* s := get in
  let uri := getDocumentUri s path in
  match getLanguageAssociation h uri with
  | None => ret Saved
  | Some assoc =>
      match head (languageServerIds assoc) with
      | None => ret Saved
      | Some serverId =>
          if negb (Js.truthy serverId) then ret Saved
          else
            match connections s !! serverId with
            | None => ret Saved
            | Some c =>
                match editors s !! uri with
                | None => ret Saved
                | Some editor =>
                    call c (textDocumentWillSave uri Manual) ;;
                    call c (getEditsBeforeSave uri Manual) ;;
                    ret (AwaitEdits uri c editor)
                end
            end
      end
  end.

(** The request is answered with [edits]: [null], or a list, which is
    truthy also when it is empty. *)
Definition editsReceived (h : Host) (k : Saving) (edits : option (list TextEdit))
  : Eff.t State Saving :=
  match k with
  | AwaitEdits uri c editor =>
      match edits with
      | Some edits =>
          emit (AppliedEdits editor edits) ;;
          updateEditor editor (applyEdits h edits) ;;
          emit (Delay saveDelay) ;;
          ret (AwaitDelay uri c editor)
      | None =>
          sendSaved uri c editor ;;
          ret Saved
      end
  | _ => ret k
  end.

(** The delay is over. *)
Definition delayElapsed (k : Saving) : Eff.t State Saving :=
  match k with
  | AwaitDelay uri c editor => sendSaved uri c editor ;; ret Saved
  | _ => ret k
  end.

(** A save that nothing interleaves with. *)
Definition save (h : Host) (path : string) (edits : option (list TextEdit))
  : Eff.t State Saving :=
  let* k := saveTextDocument h path in
  let* k := editsReceived h k edits in
  delayElapsed k.

(** The transports opened so far. *)
Definition transportsOpened (s : State) : list Effect :=
  List.filter
    (fun e => match e with NewWebSocket _ _ | NewWorker _ _ => true | _ => false end)
    (trace s).

(** The state after the loop over the registrations. *)
Definition registerAll (editor : EditorRef) (rs : list Registration) (s : State)
  : State :=
  fold_left (fun s r => exec (updateEditor editor (register r)) s) rs s.

(** The state after the loop over the disposers. *)
Definition disposeAll (disposers : list Disposer) (s : State) : State :=
  fold_left (fun s d => exec (dispose d) s) disposers s.

(** *** What a trace shows *)

(** How often a disposer was called in a run of effects. *)
Definition timesDisposed (d : Disposer) (effects : list Effect) : nat :=
  length (List.filter
            (fun e => match e with
                      | Disposed d' => bool_decide (d' = d)
                      | _ => false
                      end) effects).

(** The effects since an earlier state. *)
Definition since (before after : State) : list Effect :=
  drop (length (trace before)) (trace after).

Definition isDidChange (e : Effect) : bool :=
  match e with
  | Call _ (textDocumentChanged _ _ _) => true
  | _ => false
  end.

(** A completion or signature-help request. *)
Definition isRequest (e : Effect) : bool :=
  match e with
  | Call _ (getCompletion _ _ _) | Call _ (getSignatureHelp _ _ _) => true
  | _ => false
  end.

(** The four branches of the trigger decision. *)
Inductive Branch : Type :=
| InvokedCompletion
| TriggeredCompletion
| SignatureHelp
| SuppressBoth.

(** What a branch does, on connection [c] for the editor [cm] with the
    cursor at [pos], the trigger being [trigger]. *)
Definition reaction (h : Host) (uri : string) (c : LspConnection) (cm : EditorRef)
  (pos : Position) (trigger : option string) (b : Branch) : list Effect :=
  match b with
  | InvokedCompletion =>
      [ RemoveSignatureHelp cm;
        Call (conn c) (getCompletion uri (lspPosition h pos)
                         (mkCompletionContext Invoked None)) ]
  | TriggeredCompletion =>
      [ RemoveSignatureHelp cm;
        Call (conn c) (getCompletion uri (lspPosition h pos)
                         (mkCompletionContext TriggerCharacter trigger)) ]
  | SignatureHelp =>
      [ HideCompletions cm;
        RemoveSignatureHelp cm;
        Call (conn c) (getSignatureHelp uri (lspPosition h pos)
                         (mkSignatureHelpContext SignatureTriggerCharacter trigger false)) ]
  | SuppressBoth =>
      [ HideCompletions cm; RemoveSignatureHelp cm ]
  end.

(** The branch that is due: the first of the four whose condition holds,
    for a token at the cursor and a trigger. *)
Definition branchFor (c : LspConnection) (token : Token) (trigger : option string)
  : Branch :=
  if identifierLike token then InvokedCompletion
  else if includes (completionTriggers (capabilities c)) trigger
  then TriggeredCompletion
  else if includes (signatureHelpTriggers (capabilities c)) trigger
          || includes (signatureHelpRetriggers (capabilities c)) trigger
  then SignatureHelp
  else SuppressBoth.

(** The trigger the subscriber looks up: the last line of the inserted
    text, whole. *)
Definition lastLine (change : EditorChange) : option string :=
  last (text change).

(** The last character of the inserted text, its lines joined by the
    line break. *)
Definition lastInsertedCharacter (change : EditorChange) : option string :=
  let inserted := String.concat (String "010" "") (text change) in
  match String.length inserted with
  | 0 => None
  | S n => Some (String.substring n 1 inserted)
  end.

(** A change that removes text, in words: its origin is the explicit
    delete, or every line of its replacement text is empty. *)
Definition isDeletion (change : EditorChange) : Prop :=
  origin change = Some "+delete" \/ Forall (fun l => l = "") (text change).

(** The answer to the pre-save request brings no edit: it is [null], or
    a list without elements. *)
Definition noEditsReturned (edits : option (list TextEdit)) : Prop :=
  edits = None \/ edits = Some [].

Definition isDelay (e : Effect) : bool :=
  match e with
  | Delay _ => true
  | _ => false
  end.

(** The version and the content changes the [map] stage sends for a
    buffer. *)
Definition contentChangesOf (h : Host) (c : LspConnection) (s : State)
  (buffered : list ChangesEvent) : list TextDocumentContentChangeEvent :=
  if syncsIncrementally (capabilities c)
  then flat_map (fun '(_, cs) => List.map (lspChange h) cs) buffered
  else match buffered with
       | (cm, _) :: _ => [Full (getValue (heap s cm))]
       | [] => []
       end.

(** The last change object of a buffer. *)
Definition lastChange (buffered : list ChangesEvent) : option EditorChange :=
  last (match last buffered with Some (_, cs) => cs | None => [] end).

(** A string with a trailing separator and no second one before it. *)
Definition endsWithOneSeparator (s : string) : bool :=
  Js.endsWith s "/" && negb (Js.endsWith s "//").

(** A computation that leaves a field of the state as it was. *)
Definition keeps {X A} (field : State -> X) (m : Eff.t State A) : Prop :=
  forall s, field (snd (m s)) = field s.

(** The versions of the [didChange] notifications of a document in a run
    of effects, in order. *)
Definition changeVersions (uri : string) (effects : list Effect) : list Js.number :=
  flat_map
    (fun e => match e with
              | Call _ (textDocumentChanged u v _) => if String.eqb u uri then [v] else []
              | _ => []
              end) effects.

(** The number that tells a registered function apart. *)
Definition identityOf (r : Registration) : nat :=
  match r with
  | Handler _ id | DomListener _ id | KeyMap id => id
  end.

(** The [equals] the mouseover stream of [addEventHandlers] hands to
    [skipDuplicates]: the same line, and the same column or the same
    token. *)
Definition samePosition (editor : Editor Completion.Hints) (p1 p2 : Position) : bool :=
  if negb (line p1 =? line p2) then false
  else if ch p1 =? ch p2 then true
  else
    let t1 := getTokenAt editor p1 in
    let t2 := getTokenAt editor p2 in
    String.eqb (tok_string t1) (tok_string t2)
    && (tok_start t1 =? tok_start t2)
    && (tok_end t1 =? tok_end t2).

(** *** The life of a workspace *)

(** What can happen to a workspace once it is constructed: a call of one
    of its methods runs to its next [await], a suspended call is resumed,
    the change stream delivers, a connection reports that it closed. *)
Inductive Step : Type :=
| Open (path : string) (editor : EditorRef) (connected : option LspConnection)
| Close (path : string)
| SaveCalled (path : string)
| SaveEdits (k : Saving) (edits : option (list TextEdit))
| SaveDelayed (k : Saving)
| Changes (uri : string) (c : LspConnection) (buffered : list ChangesEvent)
| Connect (serverId : string)
| Resume (k : Connecting)
| ConnectionClosed (serverId : string)
| Edited (editor : EditorRef) (cm : Editor Completion.Hints).

Definition step (h : Host) (st : Step) (s : State) : State :=
  match st with
  | Open path editor connected => exec (openTextDocument h path editor connected) s
  | Close path => exec (closeTextDocument h path) s
  | SaveCalled path => exec (saveTextDocument h path) s
  | SaveEdits k edits => exec (editsReceived h k edits) s
  | SaveDelayed k => exec (delayElapsed k) s
  | Changes uri c buffered => exec (onChanges h uri c buffered) s
  | Connect serverId => snd (connect serverId s)
  | Resume k => snd (resume h k s)
  | ConnectionClosed serverId => closed serverId s
  | Edited editor cm => setHeap <[editor := cm]> s
  end.

Definition steps (h : Host) (sts : list Step) (s : State) : State :=
  fold_left (fun s st => step h st s) sts s.

(** The document a step is about, when it is about one: the one a method
    is called for, or the one a change stream belongs to. *)
Definition documentOf (s : State) (st : Step) : option string :=
  match st with
  | Open path _ _ | Close path | SaveCalled path => Some (getDocumentUri s path)
  | Changes uri _ _ => Some uri
  | _ => None
  end.

(** The editor table and the version table hold the same documents. *)
Definition inSync (s : State) : Prop :=
  forall uri, is_Some (editors s !! uri) <-> is_Some (documentVersions s !! uri).

(** A delivery of a change stream is timely when its document is open;
    any other step is. *)
Definition timely (s : State) (st : Step) : Prop :=
  match st with
  | Changes uri _ _ => is_Some (editors s !! uri)
  | _ => True
  end.

(** Steps that are each timely when their turn comes. *)
Fixpoint allTimely (h : Host) (sts : list Step) (s : State) : Prop :=
  match sts with
  | [] => True
  | st :: sts' => timely s st /\ allTimely h sts' (step h st s)
  end.

End Workspace.

(** ** The JSON language server of the worker *)

Module JsonServer.

Section Server.

(** [TextDocument] with its [create] and [update], the positions and the
    language service come from vscode-json-languageservice. *)
Context {TextDocument ContentChange Position Answer : Type}.
Context (create : string -> string -> Z -> string -> TextDocument).
Context (update : TextDocument -> list ContentChange -> Z -> TextDocument).
Context (doComplete doHover : TextDocument -> Position -> Answer).







End Server.

End JsonServer.

(** ** A small scenario: one TypeScript server behind a WebSocket *)

Module Scenario.

Import CodeMirror Lsp Workspace.

(** A one-line editor holding [text], the cursor at its end, on a token
    without a type (plain text), nothing shown and nothing registered. *)
Definition editor (text : string) : Editor Completion.Hints :=
  mkEditor text
    (mkPosition 0 (String.length text))
    (fun _ => mkToken None text 0 (String.length text))
    (fun a b => String.substring (ch a) (ch b - ch a) text)
    None false false false false [].

Definition declared : ServerCapabilities :=
  mkServerCapabilities true ["."] ["("; ","] [")"].

Definition host : Host :=
  mkHost
    (fun _ => "ws://localhost:9990")
    (fun _ => Some (mkLanguageAssociation "typescript" ["ts"]))
    (fun p => p)
    (fun c => Incremental (mkRange (change_from c) (change_to c))
                (String.length (String.concat "" (removed c)))
                (String.concat (String "010" "") (text c)))
    (fun edits cm => setValue (String.concat "" (List.map newText edits)) cm)
    (fun _ => declared)
    true.

Definition workspace : State :=
  Workspace.new "file:///project" true (fun _ => editor "a.").

Definition server : LspConnection := mkLspConnection 0 declared.

(** The workspace with its connection established and [a.ts] open in
    editor 0. *)
Definition connected : State :=
  setConnections <["ts" := server]> workspace.

Definition opened : State :=
  Eff.exec (openTextDocument host "a.ts" 0 (Some server)) connected.

(** Typing, pasting and deleting at the end of the line. *)
Definition typed (s : string) : EditorChange :=
  mkEditorChange (Some "+input") [s] [""] (mkPosition 0 0) (mkPosition 0 0).

Definition deleted (s : string) : EditorChange :=
  mkEditorChange (Some "+delete") [""] [s] (mkPosition 0 0) (mkPosition 0 0).

End Scenario.

(* ===================================================================== *)
(** * Part II. Properties                                                 *)
(* ===================================================================== *)

Section SkipDuplicates.

Import EventStream.
Context {T : Type} (equals : T -> T -> bool).

Let sub := skipDuplicates equals (@record T).

Lemma deliver_snoc {W} (cb : Subscriber W T) xs x w :
  deliver cb (xs ++ [x]) w = Eff.exec (cb x) (deliver cb xs w).
Proof. unfold deliver. by rewrite fold_left_app. Qed.

Lemma deliver_cons {W} (cb : Subscriber W T) x xs w :
  deliver cb (x :: xs) w = deliver cb xs (Eff.exec (cb x) w).
Proof. reflexivity. Qed.

(** One value through the operator, as the source writes it. *)
Lemma skipDuplicates_step x prev log :
  Eff.exec (sub x) (prev, log)
  = if match prev with None => true | Some p => negb (equals p x) end
    then (Some x, log ++ [x])
    else (prev, log).
Proof.
  unfold sub, skipDuplicates, Eff.exec.
  by destruct (match prev with None => true | Some p => negb (equals p x) end).
Qed.

(** [prev] always holds the last value passed on. *)
Lemma prev_is_last_emitted xs prev log :
  prev = last log ->
  fst (deliver sub xs (prev, log)) = last (snd (deliver sub xs (prev, log))).
Proof.
  revert prev log. induction xs as [|x xs IH]; intros prev log Hp; [done|].
  rewrite deliver_cons, skipDuplicates_step.
  destruct (match prev with None => true | Some p => negb (equals p x) end).
  - apply IH. by rewrite last_snoc.
  - by apply IH.
Qed.

Lemma prevAfter_last xs : prevAfter equals xs = last (emitted equals xs).
Proof. exact (prev_is_last_emitted xs None [] eq_refl). Qed.

(** What was passed on is never taken back. *)
Lemma deliver_log_grows xs prev log :
  exists rest, snd (deliver sub xs (prev, log)) = log ++ rest.
Proof.
  revert prev log. induction xs as [|x xs IH]; intros prev log.
  - exists []. by rewrite app_nil_r.
  - rewrite deliver_cons, skipDuplicates_step.
    destruct (match prev with None => true | Some p => negb (equals p x) end).
    + destruct (IH (Some x) (log ++ [x])) as [rest ->].
      exists (x :: rest). by rewrite <- app_assoc.
    + apply IH.
Qed.

(** C9. For every [equals] and every input sequence of a subscription of
    [skipDuplicates(equals)]: the first value received is passed on, and a
    later value [x] is passed on if and only if [equals(prev, x)] does not
    hold, where [prev] is the value passed on last before [x] (the last
    element of what was emitted so far, which is also what the
    subscription keeps in [prev]), not the value received last. *)
Theorem skipDuplicates_emits_iff_differs_from_last_emitted :
  (forall x xs, exists rest, emitted equals (x :: xs) = x :: rest)
  /\ (forall x0 xs x, exists p,
        last (emitted equals (x0 :: xs)) = Some p
        /\ prevAfter equals (x0 :: xs) = Some p
        /\ emitted equals ((x0 :: xs) ++ [x])
           = emitted equals (x0 :: xs) ++ (if equals p x then [] else [x])).
Proof.
  assert (Hfirst : forall x xs, exists rest, emitted equals (x :: xs) = x :: rest).
  { intros x xs. unfold emitted. fold sub.
    rewrite deliver_cons, skipDuplicates_step.
    destruct (deliver_log_grows xs (Some x) ([] ++ [x])) as [rest Hrest].
    exists rest. exact Hrest. }
  split; [exact Hfirst|].
  intros x0 xs x.
  destruct (Hfirst x0 xs) as [rest Hrest].
  pose proof (prevAfter_last (x0 :: xs)) as Hprev.
  assert (Hlast : exists p, last (emitted equals (x0 :: xs)) = Some p).
  { rewrite Hrest. destruct (last (x0 :: rest)) eqn:E; [eauto|].
    by apply last_None in E. }
  destruct Hlast as [p Hp]. exists p.
  split; [exact Hp|]. split; [congruence|].
  unfold emitted at 1. rewrite deliver_snoc. fold sub.
  rewrite Hp in Hprev. unfold prevAfter, emitted in Hprev |- *.
  fold sub in Hprev |- *.
  destruct (deliver sub (x0 :: xs) (None, [])) as [prev log].
  cbn [fst snd] in Hprev |- *. subst prev.
  rewrite skipDuplicates_step.
  destruct (equals p x); cbn; [by rewrite app_nil_r|done].
Qed.

(** The comparison is with the value passed on last, not with the value
    received last. *)
Example skipDuplicates_compares_with_emitted :
  @emitted nat (fun p x => x <=? p + 1) [1; 2; 3] = [1; 3].
Proof. reflexivity. Qed.

End SkipDuplicates.

(** The picture of the source: [1 2 2 3] becomes [1 2 3]. *)
Example skipDuplicates_picture :
EventStream.emitted Nat.eqb [1; 2; 2; 3] = [1; 2; 3].
Proof. reflexivity. Qed.

(** ** The completion renderer *)

Section CompletionExamples.

Import Completion.

Example lcs_abcbdab : lcs "abcbdab" "bdcaba" = 4.
Proof. reflexivity. Qed.

Example lcs_empty : lcs "abc" "" = 0.
Proof. reflexivity. Qed.

Example lcsScore_includes : (lcsScore "console" "con" == 3 + (1 # 7))%Q.
Proof. vm_compute. reflexivity. Qed.

End CompletionExamples.

Section SortBy.

Import Completion.
Context {A : Type} (score : A -> Q).

(** The comparator of [filteredItems]: [score b - score a]. *)
Let compare (a b : A) : Q := (score b - score a)%Q.






End SortBy.



Section FilteredItems.

Import Completion.

Lemma filteredItems_length items typed maxItems :
  length (filteredItems items typed maxItems) <= maxItems.
Proof. unfold filteredItems. rewrite length_take. lia. Qed.



(** Under a label the table holds the score of the last item carrying it. *)
Lemma scoresOf_lookup items typed l :
  scoresOf items typed !! l
  = ownScore typed <$> last (List.filter (fun i => String.eqb (label i) l) items).
Proof.
  unfold scoresOf.
  assert (forall o : gmap string Q,
    fold_left
      (fun o item => <[label item := lcsScore (filterTextOrLabel item) typed]> o)
      items o !! l
    = match last (List.filter (fun i => String.eqb (label i) l) items) with
      | Some i => Some (ownScore typed i)
      | None => o !! l
      end) as Hgen.
  { induction items as [|i items IH] using rev_ind; intros o; [done|].
    rewrite fold_left_app, List.filter_app. cbn.
    destruct (String.eqb_spec (label i) l) as [->|Hne].
    - by rewrite last_snoc, lookup_insert_eq.
    - rewrite app_nil_r, lookup_insert_ne by done. apply IH. }
  rewrite Hgen.
  by destruct (last (List.filter (fun i => String.eqb (label i) l) items)).
Qed.


(** An empty list of items shows no popup and leaves the editor as it is. *)
Lemma showInvokedCompletions_nil wordRange cm :
  showInvokedCompletions [] wordRange cm = cm.
Proof. reflexivity. Qed.

(** The popup of a non-empty list has at most 30 entries. *)
Lemma showInvokedCompletions_at_most_30 item items wordRange cm :
  exists hints,
    CodeMirror.completionActive (showInvokedCompletions (item :: items) wordRange cm)
    = Some hints
    /\ length (hints_list hints) <= 30.
Proof.
  eexists. split; [reflexivity|]. cbn [hints_list].
  rewrite length_map. apply filteredItems_length.
Qed.

End FilteredItems.

(** ** Reading a field after an assignment *)

Section Fields.

Import Workspace.

Lemma editors_setEditors f s : editors (setEditors f s) = f (editors s).
Proof. reflexivity. Qed.

Lemma connections_setEditors f s : connections (setEditors f s) = connections s.
Proof. reflexivity. Qed.

Lemma documentVersions_setEditors f s : documentVersions (setEditors f s) = documentVersions s.
Proof. reflexivity. Qed.

Lemma subscriptionDisposers_setEditors f s : subscriptionDisposers (setEditors f s) = subscriptionDisposers s.
Proof. reflexivity. Qed.

Lemma canHandleMarkdown_setEditors f s : canHandleMarkdown (setEditors f s) = canHandleMarkdown s.
Proof. reflexivity. Qed.

Lemma rootUri_setEditors f s : rootUri (setEditors f s) = rootUri s.
Proof. reflexivity. Qed.

Lemma heap_setEditors f s : heap (setEditors f s) = heap s.
Proof. reflexivity. Qed.

Lemma trace_setEditors f s : trace (setEditors f s) = trace s.
Proof. reflexivity. Qed.

Lemma fresh_setEditors f s : fresh (setEditors f s) = fresh s.
Proof. reflexivity. Qed.

Lemma editors_setConnections f s : editors (setConnections f s) = editors s.
Proof. reflexivity. Qed.

Lemma connections_setConnections f s : connections (setConnections f s) = f (connections s).
Proof. reflexivity. Qed.

Lemma documentVersions_setConnections f s : documentVersions (setConnections f s) = documentVersions s.
Proof. reflexivity. Qed.

Lemma subscriptionDisposers_setConnections f s : subscriptionDisposers (setConnections f s) = subscriptionDisposers s.
Proof. reflexivity. Qed.

Lemma canHandleMarkdown_setConnections f s : canHandleMarkdown (setConnections f s) = canHandleMarkdown s.
Proof. reflexivity. Qed.

Lemma rootUri_setConnections f s : rootUri (setConnections f s) = rootUri s.
Proof. reflexivity. Qed.

Lemma heap_setConnections f s : heap (setConnections f s) = heap s.
Proof. reflexivity. Qed.

Lemma trace_setConnections f s : trace (setConnections f s) = trace s.
Proof. reflexivity. Qed.

Lemma fresh_setConnections f s : fresh (setConnections f s) = fresh s.
Proof. reflexivity. Qed.

Lemma editors_setDocumentVersions f s : editors (setDocumentVersions f s) = editors s.
Proof. reflexivity. Qed.

Lemma connections_setDocumentVersions f s : connections (setDocumentVersions f s) = connections s.
Proof. reflexivity. Qed.

Lemma documentVersions_setDocumentVersions f s : documentVersions (setDocumentVersions f s) = f (documentVersions s).
Proof. reflexivity. Qed.

Lemma subscriptionDisposers_setDocumentVersions f s : subscriptionDisposers (setDocumentVersions f s) = subscriptionDisposers s.
Proof. reflexivity. Qed.

Lemma canHandleMarkdown_setDocumentVersions f s : canHandleMarkdown (setDocumentVersions f s) = canHandleMarkdown s.
Proof. reflexivity. Qed.

Lemma rootUri_setDocumentVersions f s : rootUri (setDocumentVersions f s) = rootUri s.
Proof. reflexivity. Qed.

Lemma heap_setDocumentVersions f s : heap (setDocumentVersions f s) = heap s.
Proof. reflexivity. Qed.

Lemma trace_setDocumentVersions f s : trace (setDocumentVersions f s) = trace s.
Proof. reflexivity. Qed.

Lemma fresh_setDocumentVersions f s : fresh (setDocumentVersions f s) = fresh s.
Proof. reflexivity. Qed.

Lemma editors_setSubscriptionDisposers f s : editors (setSubscriptionDisposers f s) = editors s.
Proof. reflexivity. Qed.

Lemma connections_setSubscriptionDisposers f s : connections (setSubscriptionDisposers f s) = connections s.
Proof. reflexivity. Qed.

Lemma documentVersions_setSubscriptionDisposers f s : documentVersions (setSubscriptionDisposers f s) = documentVersions s.
Proof. reflexivity. Qed.

Lemma subscriptionDisposers_setSubscriptionDisposers f s : subscriptionDisposers (setSubscriptionDisposers f s) = f (subscriptionDisposers s).
Proof. reflexivity. Qed.

Lemma canHandleMarkdown_setSubscriptionDisposers f s : canHandleMarkdown (setSubscriptionDisposers f s) = canHandleMarkdown s.
Proof. reflexivity. Qed.

Lemma rootUri_setSubscriptionDisposers f s : rootUri (setSubscriptionDisposers f s) = rootUri s.
Proof. reflexivity. Qed.

Lemma heap_setSubscriptionDisposers f s : heap (setSubscriptionDisposers f s) = heap s.
Proof. reflexivity. Qed.

Lemma trace_setSubscriptionDisposers f s : trace (setSubscriptionDisposers f s) = trace s.
Proof. reflexivity. Qed.

Lemma fresh_setSubscriptionDisposers f s : fresh (setSubscriptionDisposers f s) = fresh s.
Proof. reflexivity. Qed.

Lemma editors_setHeap f s : editors (setHeap f s) = editors s.
Proof. reflexivity. Qed.

Lemma connections_setHeap f s : connections (setHeap f s) = connections s.
Proof. reflexivity. Qed.

Lemma documentVersions_setHeap f s : documentVersions (setHeap f s) = documentVersions s.
Proof. reflexivity. Qed.

Lemma subscriptionDisposers_setHeap f s : subscriptionDisposers (setHeap f s) = subscriptionDisposers s.
Proof. reflexivity. Qed.

Lemma canHandleMarkdown_setHeap f s : canHandleMarkdown (setHeap f s) = canHandleMarkdown s.
Proof. reflexivity. Qed.

Lemma rootUri_setHeap f s : rootUri (setHeap f s) = rootUri s.
Proof. reflexivity. Qed.

Lemma heap_setHeap f s : heap (setHeap f s) = f (heap s).
Proof. reflexivity. Qed.

Lemma trace_setHeap f s : trace (setHeap f s) = trace s.
Proof. reflexivity. Qed.

Lemma fresh_setHeap f s : fresh (setHeap f s) = fresh s.
Proof. reflexivity. Qed.

Lemma editors_setTrace f s : editors (setTrace f s) = editors s.
Proof. reflexivity. Qed.

Lemma connections_setTrace f s : connections (setTrace f s) = connections s.
Proof. reflexivity. Qed.

Lemma documentVersions_setTrace f s : documentVersions (setTrace f s) = documentVersions s.
Proof. reflexivity. Qed.

Lemma subscriptionDisposers_setTrace f s : subscriptionDisposers (setTrace f s) = subscriptionDisposers s.
Proof. reflexivity. Qed.

Lemma canHandleMarkdown_setTrace f s : canHandleMarkdown (setTrace f s) = canHandleMarkdown s.
Proof. reflexivity. Qed.

Lemma rootUri_setTrace f s : rootUri (setTrace f s) = rootUri s.
Proof. reflexivity. Qed.

Lemma heap_setTrace f s : heap (setTrace f s) = heap s.
Proof. reflexivity. Qed.

Lemma trace_setTrace f s : trace (setTrace f s) = f (trace s).
Proof. reflexivity. Qed.

Lemma fresh_setTrace f s : fresh (setTrace f s) = fresh s.
Proof. reflexivity. Qed.

Lemma editors_setFresh f s : editors (setFresh f s) = editors s.
Proof. reflexivity. Qed.

Lemma connections_setFresh f s : connections (setFresh f s) = connections s.
Proof. reflexivity. Qed.

Lemma documentVersions_setFresh f s : documentVersions (setFresh f s) = documentVersions s.
Proof. reflexivity. Qed.

Lemma subscriptionDisposers_setFresh f s : subscriptionDisposers (setFresh f s) = subscriptionDisposers s.
Proof. reflexivity. Qed.

Lemma canHandleMarkdown_setFresh f s : canHandleMarkdown (setFresh f s) = canHandleMarkdown s.
Proof. reflexivity. Qed.

Lemma rootUri_setFresh f s : rootUri (setFresh f s) = rootUri s.
Proof. reflexivity. Qed.

Lemma heap_setFresh f s : heap (setFresh f s) = heap s.
Proof. reflexivity. Qed.

Lemma trace_setFresh f s : trace (setFresh f s) = trace s.
Proof. reflexivity. Qed.

Lemma fresh_setFresh f s : fresh (setFresh f s) = f (fresh s).
Proof. reflexivity. Qed.

Lemma editors_updated e f s : editors (updated e f s) = editors s.
Proof. reflexivity. Qed.

Lemma connections_updated e f s : connections (updated e f s) = connections s.
Proof. reflexivity. Qed.

Lemma documentVersions_updated e f s : documentVersions (updated e f s) = documentVersions s.
Proof. reflexivity. Qed.

Lemma subscriptionDisposers_updated e f s : subscriptionDisposers (updated e f s) = subscriptionDisposers s.
Proof. reflexivity. Qed.

Lemma canHandleMarkdown_updated e f s : canHandleMarkdown (updated e f s) = canHandleMarkdown s.
Proof. reflexivity. Qed.

Lemma rootUri_updated e f s : rootUri (updated e f s) = rootUri s.
Proof. reflexivity. Qed.

Lemma trace_updated e f s : trace (updated e f s) = trace s.
Proof. reflexivity. Qed.

Lemma fresh_updated e f s : fresh (updated e f s) = fresh s.
Proof. reflexivity. Qed.

Lemma heap_updated e f s : heap (updated e f s) e = f (heap s e).
Proof. unfold updated. cbn [heap setHeap]. apply fn_lookup_insert. Qed.

Lemma heap_updated_ne e e' f s : e <> e' -> heap (updated e f s) e' = heap s e'.
Proof. intros Hne. unfold updated. cbn [heap setHeap]. by apply fn_lookup_insert_ne. Qed.

End Fields.

Create Rewrite HintDb state.
#[global] Hint Rewrite
editors_setEditors
connections_setEditors
documentVersions_setEditors
subscriptionDisposers_setEditors
canHandleMarkdown_setEditors
rootUri_setEditors
heap_setEditors
trace_setEditors
fresh_setEditors
editors_setConnections
connections_setConnections
documentVersions_setConnections
subscriptionDisposers_setConnections
canHandleMarkdown_setConnections
rootUri_setConnections
heap_setConnections
trace_setConnections
fresh_setConnections
editors_setDocumentVersions
connections_setDocumentVersions
documentVersions_setDocumentVersions
subscriptionDisposers_setDocumentVersions
canHandleMarkdown_setDocumentVersions
rootUri_setDocumentVersions
heap_setDocumentVersions
trace_setDocumentVersions
fresh_setDocumentVersions
editors_setSubscriptionDisposers
connections_setSubscriptionDisposers
documentVersions_setSubscriptionDisposers
subscriptionDisposers_setSubscriptionDisposers
canHandleMarkdown_setSubscriptionDisposers
rootUri_setSubscriptionDisposers
heap_setSubscriptionDisposers
trace_setSubscriptionDisposers
fresh_setSubscriptionDisposers
editors_setHeap
connections_setHeap
documentVersions_setHeap
subscriptionDisposers_setHeap
canHandleMarkdown_setHeap
rootUri_setHeap
heap_setHeap
trace_setHeap
fresh_setHeap
editors_setTrace
connections_setTrace
documentVersions_setTrace
subscriptionDisposers_setTrace
canHandleMarkdown_setTrace
rootUri_setTrace
heap_setTrace
trace_setTrace
fresh_setTrace
editors_setFresh
connections_setFresh
documentVersions_setFresh
subscriptionDisposers_setFresh
canHandleMarkdown_setFresh
rootUri_setFresh
heap_setFresh
trace_setFresh
fresh_setFresh
editors_updated connections_updated documentVersions_updated subscriptionDisposers_updated canHandleMarkdown_updated rootUri_updated trace_updated fresh_updated heap_updated
: state.

(** ** Running a computation step by step *)

Section Running.

Import Eff Workspace.
Context {W : Type}.

Lemma bind_bind {A B C} (m : Eff.t W A) (k1 : A -> Eff.t W B) (k2 : B -> Eff.t W C) w :
  bind (bind m k1) k2 w = bind m (fun a => bind (k1 a) k2) w.
Proof. unfold bind. by destruct (m w) as [[a|e] w']. Qed.

Lemma bind_ret {A B} (a : A) (k : A -> Eff.t W B) w : bind (ret a) k w = k a w.
Proof. reflexivity. Qed.

Lemma bind_throw {A B} e (k : A -> Eff.t W B) w :
  bind (throw e) k w = (Thrown e, w).
Proof. reflexivity. Qed.

Lemma bind_get {B} (k : W -> Eff.t W B) w : bind get k w = k w w.
Proof. reflexivity. Qed.

Lemma bind_modify {B} f (k : unit -> Eff.t W B) w : bind (modify f) k w = k tt (f w).
Proof. reflexivity. Qed.

Lemma bind_ok {A B} (m : Eff.t W A) (k : A -> Eff.t W B) w a w' :
  m w = (Ok a, w') -> bind m k w = k a w'.
Proof. unfold bind. by intros ->. Qed.

Lemma bind_thrown {A B} (m : Eff.t W A) (k : A -> Eff.t W B) w e w' :
  m w = (Thrown e, w') -> bind m k w = (Thrown e, w').
Proof. unfold bind. by intros ->. Qed.

Lemma ret_run {A} (a : A) (w : W) : ret a w = (Ok a, w).
Proof. reflexivity. Qed.

Lemma throw_run {A} e (w : W) : @throw W A e w = (Thrown e, w).
Proof. reflexivity. Qed.

End Running.

Section RunningWorkspace.

Import Eff Workspace.

Lemma bind_emit {B} e (k : unit -> Eff.t State B) s :
  bind (emit e) k s = k tt (setTrace (fun t => t ++ [e]) s).
Proof. reflexivity. Qed.

Lemma bind_call {B} c m (k : unit -> Eff.t State B) s :
  bind (call c m) k s = k tt (setTrace (fun t => t ++ [Call (Lsp.conn c) m]) s).
Proof. reflexivity. Qed.

Lemma bind_updateEditor {B} e f (k : unit -> Eff.t State B) s :
  bind (updateEditor e f) k s = k tt (updated e f s).
Proof. reflexivity. Qed.

Lemma bind_readEditor {B} e (k : _ -> Eff.t State B) s :
  bind (readEditor e) k s = k (heap s e) s.
Proof. reflexivity. Qed.

Lemma bind_nextVersion {B} u (k : _ -> Eff.t State B) s :
  bind (nextVersion u) k s
  = k (Js.preIncrement (documentVersions s !! u))
      (setDocumentVersions <[u := Js.preIncrement (documentVersions s !! u)]> s).
Proof. reflexivity. Qed.

Lemma emit_run e s : emit e s = (Ok tt, setTrace (fun t => t ++ [e]) s).
Proof. reflexivity. Qed.

Lemma call_run c m s :
  call c m s = (Ok tt, setTrace (fun t => t ++ [Call (Lsp.conn c) m]) s).
Proof. reflexivity. Qed.

Lemma updateEditor_run e f s : updateEditor e f s = (Ok tt, updated e f s).
Proof. reflexivity. Qed.

End RunningWorkspace.

Create Rewrite HintDb eff.
#[global] Hint Rewrite
@bind_bind @bind_ret @bind_throw @bind_get @bind_modify @ret_run @throw_run
@bind_emit @bind_call @bind_updateEditor @bind_readEditor @bind_nextVersion
emit_run call_run updateEditor_run
: eff.

(** Runs what is left of a computation as far as its next branch. *)
Ltac run :=
unfold Workspace.hideCompletions, Workspace.removeSignatureHelp,
  Workspace.removeDiagnostics, Workspace.removeHoverInfo,
  Workspace.removeHighlights;
autorewrite with eff; cbv beta iota.

(** ** The workspace root *)

Section RootUri.

Import Eff CodeMirror Lsp Workspace.

Lemma append_cons c s t : String c s +:+ t = String c (s +:+ t).
Proof. reflexivity. Qed.

Lemma append_nil t : "" +:+ t = t.
Proof. reflexivity. Qed.

Lemma endsWith_append_slash s : Js.endsWith (s +:+ "/") "/" = true.
Proof.
  induction s as [|c s IH]; [done|].
  rewrite append_cons. cbn [Js.endsWith]. rewrite IH. apply orb_true_r.
Qed.

Lemma eqb_append_slash_slash s : String.eqb (s +:+ "/") "//" = String.eqb s "/".
Proof.
  destruct s as [|c [|d s]]; rewrite ?append_cons, ?append_nil; cbn; try done.
  destruct (Ascii.eqb c "/"); [|done].
  destruct (Ascii.eqb d "/"); [|done].
  destruct s; by rewrite ?append_cons, ?append_nil.
Qed.

Lemma endsWith_append_slash_slash s :
  Js.endsWith (s +:+ "/") "//" = Js.endsWith s "/".
Proof.
  induction s as [|c s IH]; [done|].
  rewrite append_cons. cbn [Js.endsWith]. rewrite IH. f_equal.
  rewrite <- append_cons. apply eqb_append_slash_slash.
Qed.

Lemma endsWith_slash_slash_slash s :
  Js.endsWith s "//" = true -> Js.endsWith s "/" = true.
Proof.
  induction s as [|c s IH]; [done|].
  cbn [Js.endsWith]. intros [Heq|Hs]%orb_true_iff.
  - apply String.eqb_eq in Heq. injection Heq as -> ->. reflexivity.
  - rewrite (IH Hs). apply orb_true_r.
Qed.

End RootUri.

(** ** Fields that a computation leaves alone *)

Section Keeps.

Import Eff CodeMirror Lsp Workspace.
Context {X : Type} (field : State -> X).

Lemma keeps_bind {A B} (m : Eff.t State A) (k : A -> Eff.t State B) :
  keeps field m -> (forall a, keeps field (k a)) -> keeps field (bind m k).
Proof.
  intros Hm Hk s. unfold bind. specialize (Hm s).
  destruct (m s) as [[a|e] s']; cbn in *; [|done].
  by rewrite Hk.
Qed.

Lemma keeps_forEach {A} (body : A -> Eff.t State unit) xs :
  (forall x, keeps field (body x)) -> keeps field (forEach body xs).
Proof.
  intros Hbody. induction xs as [|x xs IH]; [done|].
  cbn. apply keeps_bind; [apply Hbody|by intros _].
Qed.

Lemma keeps_onEditor b editor r :
  (forall e, keeps field (r e)) -> keeps field (onEditor b editor r).
Proof. intros Hr. destruct editor as [e|]; [apply Hr|by destruct b]. Qed.

End Keeps.

(** Splits a computation at its binds and branches; what remains is a
  primitive, which keeps the field by computation when it does. *)
Ltac keeps_field :=
repeat first
  [ progress intros
  | solve [ let s := fresh "s" in intros s; reflexivity ]
  | apply keeps_forEach
  | apply keeps_onEditor
  | apply keeps_bind
  | match goal with
    | |- Workspace.keeps _ (match ?x with _ => _ end) => destruct x
    | |- Workspace.keeps _ (if ?b then _ else _) => destruct b
    end ].

Section RootUriKept.

Import Eff CodeMirror Lsp Workspace.

(** [removeEventHandlers] only touches the trace, the editors' state and
    the disposers. *)
Lemma keeps_removeEventHandlers {X} (field : State -> X) h editor :
  (forall f s, field (setTrace f s) = field s) ->
  (forall f s, field (setHeap f s) = field s) ->
  (forall f s, field (setSubscriptionDisposers f s) = field s) ->
  keeps field (removeEventHandlers h editor).
Proof.
  intros Ht Hh Hd. unfold removeEventHandlers.
  assert (forall e, keeps field (emit e)) as Hemit by (intros e s; apply Ht).
  assert (forall e f, keeps field (updateEditor e f)) as Hup by (intros e f s; apply Hh).
  assert (forall f, keeps field (modify (setSubscriptionDisposers f))) as Hmod
    by (intros f s; apply Hd).
  unfold dispose, removeDiagnostics, removeHoverInfo, removeHighlights,
    hideCompletions, removeSignatureHelp.
  repeat first
    [ progress intros
    | apply Hemit | apply Hup | apply Hmod
    | solve [ let s := fresh "s" in intros s; reflexivity ]
    | apply keeps_forEach | apply keeps_onEditor | apply keeps_bind
    | match goal with
      | |- keeps _ (match ?x with _ => _ end) => destruct x
      end ].
Qed.

Lemma keepsRoot_open h path editor connected :
  keeps rootUri (openTextDocument h path editor connected).
Proof. unfold openTextDocument. keeps_field. Qed.

Lemma keepsRoot_close h path : keeps rootUri (closeTextDocument h path).
Proof. unfold closeTextDocument, removeEventHandlers. keeps_field. Qed.

Lemma keepsRoot_onChanges h uri c buffered :
  keeps rootUri (onChanges h uri c buffered).
Proof.
  unfold onChanges, EventStream.map, EventStream.filter, changesTransform,
    changesFilter, changesSubscriber.
  keeps_field.
Qed.

Lemma keepsRoot_save h path : keeps rootUri (saveTextDocument h path).
Proof. unfold saveTextDocument. keeps_field. Qed.

Lemma keepsRoot_editsReceived h k edits : keeps rootUri (editsReceived h k edits).
Proof. unfold editsReceived. keeps_field. Qed.

Lemma keepsRoot_delayElapsed k : keeps rootUri (delayElapsed k).
Proof. unfold delayElapsed. keeps_field. Qed.

Lemma step_keeps_root h st s : rootUri (step h st s) = rootUri s.
Proof.
  destruct st; cbn [step]; unfold exec.
  - apply keepsRoot_open.
  - apply keepsRoot_close.
  - apply keepsRoot_save.
  - apply keepsRoot_editsReceived.
  - apply keepsRoot_delayElapsed.
  - apply keepsRoot_onChanges.
  - unfold connect. by destruct (connections s !! serverId).
  - unfold resume. destruct k; try done.
    by destruct (negb (Js.truthy (getConnectionString h serverId))).
  - done.
  - done.
Qed.

Lemma steps_keep_root h sts s : rootUri (steps h sts s) = rootUri s.
Proof.
  revert s. induction sts as [|st sts IH]; intros s; [done|].
  cbn. fold (steps h sts (step h st s)). by rewrite IH, step_keeps_root.
Qed.

(** C8, as stated, fails: a root URI that ends with several separators is
    stored as it is. *)
Lemma root_uri_with_several_separators :
  ~ (forall root markdown world,
       endsWithOneSeparator (rootUri (Workspace.new root markdown world)) = true).
Proof.
  intros Hall. specialize (Hall "file:///" true (fun _ => Scenario.editor "")).
  discriminate Hall.
Qed.

(** C8, amended. For every workspace constructed from any root URI string,
    the stored root URI ends with a separator: it is the input when the
    input ends with one, and the input followed by one separator
    otherwise, so it ends with exactly one separator exactly when the
    input does not end with two.  No step of the workspace's life changes
    it, and a document URI is the stored root followed by the path
    without its leading separators. *)
Theorem root_uri_ends_with_separator root markdown world :
  let s := Workspace.new root markdown world in
  Js.endsWith (rootUri s) "/" = true
  /\ rootUri s = (if Js.endsWith root "/" then root else root +:+ "/")
  /\ endsWithOneSeparator (rootUri s) = negb (Js.endsWith root "//")
  /\ (forall h sts, rootUri (steps h sts s) = rootUri s)
  /\ (forall h sts path,
        getDocumentUri (steps h sts s) path
        = rootUri s +:+ Js.stripLeadingSlashes path).
Proof.
  cbn zeta. unfold Workspace.new. cbn [rootUri].
  assert (Hstored :
    root +:+ (if negb (Js.endsWith root "/") then "/" else "")
    = if Js.endsWith root "/" then root else root +:+ "/").
  { destruct (Js.endsWith root "/"); cbn [negb]; [|done].
    clear. induction root as [|c r IH]; [done|].
    rewrite append_cons. by rewrite IH. }
  rewrite Hstored.
  split; [|split; [done|split; [|split]]].
  - destruct (Js.endsWith root "/") eqn:E; [done|apply endsWith_append_slash].
  - unfold endsWithOneSeparator.
    destruct (Js.endsWith root "/") eqn:E.
    + by rewrite E.
    + rewrite endsWith_append_slash, endsWith_append_slash_slash, E. cbn.
      destruct (Js.endsWith root "//") eqn:E2; [|done].
      apply endsWith_slash_slash_slash in E2. congruence.
  - intros h sts. by rewrite steps_keep_root.
  - intros h sts path. unfold getDocumentUri. by rewrite steps_keep_root.
Qed.

End RootUriKept.

(** ** Opening and closing a document *)

Section OpenClose.

Import Eff CodeMirror Lsp Workspace.

Lemma since_app (s s' : State) l : trace s' = trace s ++ l -> since s s' = l.
Proof. intros E. unfold since. rewrite E. by rewrite drop_app_length. Qed.

Context (h : Host) (root path : string) (assoc : LanguageAssociation)
  (serverId : string).

Let uri := root +:+ Js.stripLeadingSlashes path.

Hypothesis Hassoc : getLanguageAssociation h uri = Some assoc.
Hypothesis Hserver : head (languageServerIds assoc) = Some serverId.
Hypothesis Htruthy : Js.truthy serverId = true.

Lemma open_connected s editor c :
  rootUri s = root ->
  exec (openTextDocument h path editor (Some c)) s
  = exec (addEventHandlers uri editor c)
      (setTrace (fun t => t ++ [Call (conn c)
                   (textDocumentOpened uri (languageId assoc)
                      (getValue (heap s editor)) (Js.Num 1))])
         (setDocumentVersions <[uri := Js.Num 1]>
            (setEditors <[uri := editor]> s))).
Proof.
  intros Hroot. unfold exec, openTextDocument, bind, get, getDocumentUri.
  cbn. rewrite Hroot. fold uri. rewrite Hassoc, Hserver, Htruthy. cbn.
  unfold setDocumentVersions at 1. cbn.
  rewrite lookup_insert_eq. cbn. rewrite insert_insert_eq.
  reflexivity.
Qed.

Lemma forEach_register e rs s :
  forEach (fun r => updateEditor e (register r)) rs s = (Ok tt, registerAll e rs s).
Proof.
  revert s. induction rs as [|r rs IH]; intros s; [done|].
  cbn [forEach registerAll fold_left]. unfold bind at 1.
  change (updateEditor e (register r) s)
    with (Ok tt, exec (updateEditor e (register r)) s).
  apply IH.
Qed.

Lemma registerAll_keeps {X} (field : State -> X) e rs s :
  (forall f s, field (setHeap f s) = field s) ->
  field (registerAll e rs s) = field s.
Proof.
  intros Hh. revert s. induction rs as [|r rs IH]; intros s; [done|].
  change (field (registerAll e rs (exec (updateEditor e (register r)) s)) = field s).
  rewrite IH. apply Hh.
Qed.

Lemma registerAll_heap e rs s :
  let cm := heap (registerAll e rs s) e in
  registrations cm = registrations (heap s e) ++ rs
  /\ setRegistrations [] cm = setRegistrations [] (heap s e).
Proof.
  cbn zeta. revert s. induction rs as [|r rs IH]; intros s.
  - cbn [registerAll fold_left]. by rewrite app_nil_r.
  - change (registerAll e (r :: rs) s)
      with (registerAll e rs (exec (updateEditor e (register r)) s)).
    destruct (IH (exec (updateEditor e (register r)) s)) as [IH1 IH2].
    rewrite IH1, IH2.
    change (heap (exec (updateEditor e (register r)) s) e)
      with (<[e := register r (heap s e)]> (heap s) e).
    rewrite fn_lookup_insert. split; [|done].
    unfold register, setRegistrations. cbn [registrations]. by rewrite <- app_assoc.
Qed.

Lemma addEventHandlers_run u editor c s :
  addEventHandlers u editor c s
  = (Ok tt,
     setSubscriptionDisposers
       <[editor := List.map (pair editor) (registrationsFrom (fresh s))]>
       (registerAll editor (registrationsFrom (fresh s))
          (setFresh (fun k => k + 7) s))).
Proof.
  unfold addEventHandlers. unfold bind at 1. cbn [fresh setFresh].
  unfold bind at 1. rewrite forEach_register. reflexivity.
Qed.

(** [addEventHandlers] registers on the editor and records the
    disposers; it sends nothing and touches no table of documents. *)
Lemma addEventHandlers_fields u editor c s :
  trace (exec (addEventHandlers u editor c) s) = trace s
  /\ documentVersions (exec (addEventHandlers u editor c) s) = documentVersions s
  /\ editors (exec (addEventHandlers u editor c) s) = editors s
  /\ connections (exec (addEventHandlers u editor c) s) = connections s
  /\ subscriptionDisposers (exec (addEventHandlers u editor c) s)
     = <[editor := List.map (pair editor) (registrationsFrom (fresh s))]>
         (subscriptionDisposers s)
  /\ registrations (heap (exec (addEventHandlers u editor c) s) editor)
     = registrations (heap s editor) ++ registrationsFrom (fresh s)
  /\ setRegistrations [] (heap (exec (addEventHandlers u editor c) s) editor)
     = setRegistrations [] (heap s editor).
Proof.
  unfold exec. rewrite addEventHandlers_run. cbn [snd].
  autorewrite with state.
  destruct (registerAll_heap editor (registrationsFrom (fresh s))
              (setFresh (fun k => k + 7) s)) as [Hregs Hrest].
  rewrite Hregs, Hrest.
  rewrite (registerAll_keeps trace), (registerAll_keeps documentVersions),
    (registerAll_keeps editors), (registerAll_keeps connections),
    (registerAll_keeps subscriptionDisposers) by (intros; reflexivity).
  autorewrite with state.
  repeat split.
Qed.

(** The loop over the disposers never throws. *)
Lemma forEach_dispose ds s : forEach dispose ds s = (Ok tt, disposeAll ds s).
Proof.
  revert s. induction ds as [|d ds IH]; intros s; [done|].
  change (disposeAll (d :: ds) s) with (disposeAll ds (exec (dispose d) s)).
  cbn [forEach]. rewrite (bind_ok _ _ _ tt (exec (dispose d) s)); [apply IH|].
  unfold exec, dispose. by run.
Qed.

Lemma disposeAll_trace ds s :
  trace (disposeAll ds s) = trace s ++ List.map Disposed ds.
Proof.
  revert s. induction ds as [|d ds IH]; intros s.
  - cbn [disposeAll fold_left List.map]. by rewrite app_nil_r.
  - change (disposeAll (d :: ds) s) with (disposeAll ds (exec (dispose d) s)).
    rewrite IH. unfold exec, dispose. run. cbn [snd List.map].
    autorewrite with state. by rewrite <- app_assoc.
Qed.

Lemma disposeAll_keeps {X} (field : State -> X) ds s :
  (forall f s, field (setTrace f s) = field s) ->
  (forall f s, field (setHeap f s) = field s) ->
  field (disposeAll ds s) = field s.
Proof.
  intros Ht Hh. revert s. induction ds as [|d ds IH]; intros s; [done|].
  change (field (disposeAll ds (exec (dispose d) s)) = field s).
  rewrite IH. unfold exec, dispose. run. cbn [snd]. unfold updated.
  by rewrite Hh, Ht.
Qed.

Lemma filter_unregistered (e : nat) r' (ds : list (nat * Registration)) l :
  List.filter (fun r => bool_decide ((e, r) ∉ ds))
    (List.filter (fun r => bool_decide (r <> r')) l)
  = List.filter (fun r => bool_decide ((e, r) ∉ (e, r') :: ds)) l.
Proof.
  induction l as [|r l IH]; [done|].
  cbn [List.filter].
  destruct (decide (r = r')) as [->|Hr].
  - rewrite (bool_decide_eq_false_2 (r' <> r')) by tauto.
    rewrite (bool_decide_eq_false_2 ((e, r') ∉ (e, r') :: ds))
      by (intros Hn; apply Hn; left).
    exact IH.
  - rewrite (bool_decide_eq_true_2 (r <> r')) by done.
    cbn [List.filter]. rewrite IH.
    destruct (decide ((e, r) ∈ ds)) as [Hin|Hnin].
    + rewrite (bool_decide_eq_false_2 ((e, r) ∉ ds)) by tauto.
      rewrite (bool_decide_eq_false_2 ((e, r) ∉ (e, r') :: ds)); [done|].
      intros Hn. apply Hn. by right.
    + rewrite (bool_decide_eq_true_2 ((e, r) ∉ ds)) by done.
      rewrite (bool_decide_eq_true_2 ((e, r) ∉ (e, r') :: ds)); [done|].
      intros [Heq|Hin]%elem_of_cons; [congruence|done].
Qed.

Lemma filter_other_editor (e e' : nat) r' (ds : list (nat * Registration)) l :
  e' <> e ->
  List.filter (fun r => bool_decide ((e, r) ∉ ds)) l
  = List.filter (fun r => bool_decide ((e, r) ∉ (e', r') :: ds)) l.
Proof.
  intros Hne. apply filter_ext. intros r. apply bool_decide_ext.
  rewrite not_elem_of_cons. split; [|tauto]. intros Hn. split; [congruence|done].
Qed.

Lemma filter_none {A} (P : A -> bool) l :
  (forall x, x ∈ l -> P x = false) -> List.filter P l = [].
Proof.
  induction l as [|x l IH]; intros Hall; [done|].
  cbn [List.filter]. rewrite (Hall x) by (by left).
  apply IH. intros y Hy. apply Hall. by right.
Qed.

Lemma filter_all (l : list Registration) : List.filter (fun _ => true) l = l.
Proof. induction l as [|r l IH]; [done|]. cbn. by rewrite IH. Qed.

(** Disposing takes the registrations off their editor and touches
    nothing else of any editor. *)
Lemma disposeAll_heap ds s e :
  registrations (heap (disposeAll ds s) e)
  = List.filter (fun r => bool_decide ((e, r) ∉ ds)) (registrations (heap s e))
  /\ setRegistrations [] (heap (disposeAll ds s) e) = setRegistrations [] (heap s e).
Proof.
  revert s. induction ds as [|[e' r'] ds IH]; intros s.
  - cbn [disposeAll fold_left]. split; [|done].
    rewrite <- (filter_all (registrations (heap s e))) at 1.
    apply filter_ext. intros r. symmetry. apply bool_decide_eq_true_2, not_elem_of_nil.
  - change (disposeAll ((e', r') :: ds) s)
      with (disposeAll ds (exec (dispose (e', r')) s)).
    destruct (IH (exec (dispose (e', r')) s)) as [IH1 IH2].
    rewrite IH1, IH2. clear IH IH1 IH2.
    unfold exec, dispose. run. cbn [fst snd]. autorewrite with state.
    destruct (decide (e' = e)) as [->|Hne].
    + rewrite heap_updated. autorewrite with state.
      unfold unregister, setRegistrations. cbn [registrations]. split; [|done].
      apply filter_unregistered.
    + rewrite heap_updated_ne by done. autorewrite with state. split; [|done].
      by apply filter_other_editor.
Qed.

Lemma bind_forEach_dispose {B} ds (k : unit -> Eff.t State B) s :
  bind (forEach dispose ds) k s = k tt (disposeAll ds s).
Proof. apply bind_ok, forEach_dispose. Qed.

(** The guards of [closeTextDocument] passed, the tables are cleared,
    the handlers removed and [didClose] sent. *)
Lemma close_connected s c :
  rootUri s = root ->
  connections s !! serverId = Some c ->
  closeTextDocument h path s
  = bind (removeEventHandlers h (editors s !! uri))
      (fun _ => call c (textDocumentClosed uri))
      (setDocumentVersions (delete uri) (setEditors (delete uri) s)).
Proof.
  intros Hroot Hconn. unfold closeTextDocument. run. unfold getDocumentUri.
  rewrite Hroot. fold uri. rewrite Hassoc, Hserver, Htruthy, Hconn. cbn [negb].
  run. reflexivity.
Qed.

(** C3. Every successful open of a document URI sends [didOpen] with
    version 1 and nothing else, and leaves the counter at 1; closing
    removes the counter, so that whatever happened to the document in
    between, the [didOpen] of a reopen carries version 1 again. *)
Theorem didOpen_carries_version_1 :
  (forall s editor c,
      rootUri s = root ->
      let s' := exec (openTextDocument h path editor (Some c)) s in
      since s s'
      = [Call (conn c)
           (textDocumentOpened uri (languageId assoc) (getValue (heap s editor))
              (Js.Num 1))]
      /\ documentVersions s' !! uri = Some (Js.Num 1))
  /\ (forall s c0,
        rootUri s = root ->
        connections s !! serverId = Some c0 ->
        documentVersions (exec (closeTextDocument h path) s) !! uri = None)
  /\ (forall s editor c sts editor' c',
        rootUri s = root ->
        let s1 := exec (openTextDocument h path editor (Some c)) s in
        let s2 := steps h sts s1 in
        let s3 := exec (closeTextDocument h path) s2 in
        let s4 := exec (openTextDocument h path editor' (Some c')) s3 in
        since s3 s4
        = [Call (conn c')
             (textDocumentOpened uri (languageId assoc) (getValue (heap s3 editor'))
                (Js.Num 1))]).
Proof.
  assert (Hopen : forall s editor c,
    rootUri s = root ->
    let s' := exec (openTextDocument h path editor (Some c)) s in
    since s s'
    = [Call (conn c)
         (textDocumentOpened uri (languageId assoc) (getValue (heap s editor))
            (Js.Num 1))]
    /\ documentVersions s' !! uri = Some (Js.Num 1)).
  { intros s editor c Hroot s'. subst s'. rewrite (open_connected s editor c Hroot).
    match goal with
    | |- context [exec (addEventHandlers ?u ?e ?c) ?s0] =>
        pose proof (addEventHandlers_fields u e c s0) as Hfields
    end.
    destruct Hfields as (Ht & Hv & _).
    split.
    - apply since_app. by rewrite Ht.
    - rewrite Hv. cbn [documentVersions setTrace setDocumentVersions].
      apply lookup_insert_eq. }
  split; [exact Hopen|]. split.
  - intros s c0 Hroot Hconn. unfold exec.
    rewrite (close_connected s c0 Hroot Hconn).
    rewrite (keeps_bind documentVersions); [| |intros; intros ?; reflexivity].
    + autorewrite with state. apply lookup_delete_eq.
    + apply keeps_removeEventHandlers; intros; reflexivity.
  - intros s editor c sts editor' c' Hroot s1 s2 s3 s4.
    apply Hopen. subst s3 s2 s1.
    unfold exec. rewrite keepsRoot_close. fold (exec (openTextDocument h path editor (Some c)) s).
    rewrite steps_keep_root. unfold exec. by rewrite keepsRoot_open.
Qed.

Lemma setEditors_id f s : f (editors s) = editors s -> setEditors f s = s.
Proof. destruct s. unfold setEditors. cbn. intros Hf. by rewrite Hf. Qed.

Lemma setDocumentVersions_id f s :
  f (documentVersions s) = documentVersions s -> setDocumentVersions f s = s.
Proof. destruct s. unfold setDocumentVersions. cbn. intros Hf. by rewrite Hf. Qed.

Lemma hideCompletions_closes cm :
  completionActive (Completion.hideCompletions cm) = None.
Proof.
  unfold Completion.hideCompletions. by destruct (completionActive cm) eqn:E.
Qed.

Lemma hideCompletions_registrations cm :
  registrations (Completion.hideCompletions cm) = registrations cm.
Proof. unfold Completion.hideCompletions. by destruct (completionActive cm). Qed.

Lemma hideCompletions_surfaces cm :
  hoverInfoShown (Completion.hideCompletions cm) = hoverInfoShown cm
  /\ highlightsShown (Completion.hideCompletions cm) = highlightsShown cm
  /\ diagnosticsShown (Completion.hideCompletions cm) = diagnosticsShown cm
  /\ signatureHelpShown (Completion.hideCompletions cm) = signatureHelpShown cm.
Proof. unfold Completion.hideCompletions. by destruct (completionActive cm). Qed.

(** A disposer that is listed once is called once. *)
Lemma timesDisposed_once d (ds : list (nat * Registration)) rest :
  NoDup ds -> d ∈ ds ->
  (forall d', Disposed d' ∉ rest) ->
  timesDisposed d (List.map Disposed ds ++ rest) = 1.
Proof.
  intros Hnd Hin Hrest. unfold timesDisposed.
  rewrite List.filter_app, length_app.
  assert (length (List.filter
            (fun e => match e with Disposed d' => bool_decide (d' = d) | _ => false end)
            rest) = 0) as ->.
  { clear -Hrest. induction rest as [|e rest IH]; [done|].
    cbn [List.filter]. destruct e; try (apply IH; intros d' Hd; apply (Hrest d'); by right).
    exfalso. apply (Hrest d0). by left. }
  rewrite Nat.add_0_r.
  induction Hnd as [|d0 ds Hd0 Hnd IH]; [by apply elem_of_nil in Hin|].
  cbn [List.map List.filter].
  apply elem_of_cons in Hin as [->|Hin].
  - rewrite bool_decide_eq_true_2 by done. cbn [length]. f_equal.
    clear IH. induction ds as [|d1 ds IH]; [done|].
    cbn [List.map List.filter].
    rewrite bool_decide_eq_false_2.
    + apply IH; [by intros ?; apply Hd0; right|by inversion Hnd].
    + intros ->. apply Hd0. by left.
  - rewrite bool_decide_eq_false_2; [by apply IH|].
    intros ->. done.
Qed.

(** Without an editor nothing is disposed, and [hideCompletions] throws
    on [undefined] at the latest. *)
Lemma removeEventHandlers_undefined s :
  removeEventHandlers h None s = (Thrown "TypeError", s).
Proof.
  unfold removeEventHandlers. run. cbn [mbind option_bind onEditor].
  destruct (renderersAcceptUndefined h); by run.
Qed.

(** C7. Closing an open document, its connection still in the table and
    its disposers those of the registrations on its editor: every disposer
    is called exactly once and the registrations are gone, the transient
    surfaces (diagnostics, hover, highlights, completion, signature help)
    are cleared, the URI has left the editor and version tables, and
    [didClose] is sent last.  A second close sends nothing and changes no
    state; it is no silent no-op, though: it ends in the [TypeError] of
    [hideCompletions(undefined)]. *)
Theorem close_disposes_once_and_second_close_throws s c editor :
  rootUri s = root ->
  connections s !! serverId = Some c ->
  editors s !! uri = Some editor ->
  subscriptionDisposers s !! editor
  = Some (List.map (pair editor) (registrations (heap s editor))) ->
  NoDup (registrations (heap s editor)) ->
  let disposers := List.map (pair editor) (registrations (heap s editor)) in
  let s1 := exec (closeTextDocument h path) s in
  fst (closeTextDocument h path s) = Ok tt
  /\ since s s1
     = List.map Disposed disposers
       ++ [RemoveDiagnostics editor; RemoveHoverInfo editor; RemoveHighlights editor;
           HideCompletions editor; RemoveSignatureHelp editor;
           Call (conn c) (textDocumentClosed uri)]
  /\ (forall d, d ∈ disposers -> timesDisposed d (since s s1) = 1)
  /\ registrations (heap s1 editor) = []
  /\ subscriptionDisposers s1 !! editor = None
  /\ editors s1 !! uri = None
  /\ documentVersions s1 !! uri = None
  /\ (completionActive (heap s1 editor) = None
      /\ signatureHelpShown (heap s1 editor) = false
      /\ hoverInfoShown (heap s1 editor) = false
      /\ highlightsShown (heap s1 editor) = false
      /\ diagnosticsShown (heap s1 editor) = false)
  /\ closeTextDocument h path s1 = (Thrown "TypeError", s1).
Proof.
  intros Hroot Hconn Hed Hsub Hnd disposers s1.
  evar (T : State).
  assert (Hrun : closeTextDocument h path s = (Ok tt, T)).
  { rewrite (close_connected s c Hroot Hconn), Hed.
    unfold removeEventHandlers. run. cbn [mbind option_bind onEditor].
    autorewrite with state. rewrite Hsub. run. rewrite bind_forEach_dispose. run.
    subst T. reflexivity. }
  assert (s1 = T) as -> by (subst s1; unfold exec; by rewrite Hrun).
  rewrite Hrun. cbn [fst].
  set (s0 := setDocumentVersions (delete uri) (setEditors (delete uri) s)) in T.
  destruct (disposeAll_heap disposers s0 editor) as [Hregs Hrest].
  assert (Hcm : heap s0 editor = heap s editor) by reflexivity.
  rewrite Hcm in Hregs, Hrest.
  assert (List.filter (fun r => bool_decide ((editor, r) ∉ disposers))
            (registrations (heap s editor)) = []) as Hnone.
  { apply filter_none. intros r Hr. apply bool_decide_eq_false_2.
    intros Hn. apply Hn. subst disposers.
    apply list_elem_of_In, in_map, list_elem_of_In, Hr. }
  rewrite Hnone in Hregs. clear Hnone Hcm.
  assert (Htrace : trace T
    = trace s ++ List.map Disposed disposers
      ++ [RemoveDiagnostics editor; RemoveHoverInfo editor; RemoveHighlights editor;
          HideCompletions editor; RemoveSignatureHelp editor;
          Call (conn c) (textDocumentClosed uri)]).
  { subst T. autorewrite with state. cbv beta.
    rewrite disposeAll_trace. subst s0. autorewrite with state.
    by rewrite <- !app_assoc. }
  assert (Hheap : heap T editor
    = setSignatureHelpShown false
        (Completion.hideCompletions
           (setHighlightsShown false
              (setHoverInfoShown false
                 (setDiagnosticsShown false (heap (disposeAll disposers s0) editor)))))).
  { subst T. by autorewrite with state. }
  assert (Heds : editors T = delete uri (editors s)).
  { subst T. autorewrite with state.
    rewrite (disposeAll_keeps editors) by (intros; reflexivity).
    subst s0. by autorewrite with state. }
  assert (Hvers : documentVersions T = delete uri (documentVersions s)).
  { subst T. autorewrite with state.
    rewrite (disposeAll_keeps documentVersions) by (intros; reflexivity).
    subst s0. by autorewrite with state. }
  assert (Hconns : connections T = connections s).
  { subst T. autorewrite with state.
    rewrite (disposeAll_keeps connections) by (intros; reflexivity).
    subst s0. by autorewrite with state. }
  assert (HrootT : rootUri T = root).
  { subst T. autorewrite with state.
    rewrite (disposeAll_keeps rootUri) by (intros; reflexivity).
    subst s0. by autorewrite with state. }
  assert (Hsubs : subscriptionDisposers T = delete editor (subscriptionDisposers s)).
  { subst T. autorewrite with state. cbv beta.
    rewrite (disposeAll_keeps subscriptionDisposers) by (intros; reflexivity).
    subst s0. by autorewrite with state. }
  clearbody T. clear Hrest.
  assert (Hsince : since s T
    = List.map Disposed disposers
      ++ [RemoveDiagnostics editor; RemoveHoverInfo editor; RemoveHighlights editor;
          HideCompletions editor; RemoveSignatureHelp editor;
          Call (conn c) (textDocumentClosed uri)]) by (by apply since_app).
  repeat split.
  - exact Hsince.
  - intros d Hd. rewrite Hsince. apply timesDisposed_once; [|done|].
    + subst disposers. apply NoDup_fmap_2; [|done]. by intros r1 r2 [= ->].
    + intros d' Hd'. repeat (apply elem_of_cons in Hd' as [Hd'|Hd']; [discriminate|]).
      by apply elem_of_nil in Hd'.
  - rewrite Hheap. unfold setSignatureHelpShown. cbn [registrations].
    rewrite hideCompletions_registrations. cbn [registrations setHighlightsShown
      setHoverInfoShown setDiagnosticsShown]. exact Hregs.
  - rewrite Hsubs. apply lookup_delete_eq.
  - rewrite Heds. apply lookup_delete_eq.
  - rewrite Hvers. apply lookup_delete_eq.
  - rewrite Hheap. unfold setSignatureHelpShown. cbn [completionActive].
    apply hideCompletions_closes.
  - by rewrite Hheap.
  - rewrite Hheap. unfold setSignatureHelpShown. cbn [hoverInfoShown].
    by rewrite (proj1 (hideCompletions_surfaces _)).
  - rewrite Hheap. unfold setSignatureHelpShown. cbn [highlightsShown].
    by rewrite (proj1 (proj2 (hideCompletions_surfaces _))).
  - rewrite Hheap. unfold setSignatureHelpShown. cbn [diagnosticsShown].
    by rewrite (proj1 (proj2 (proj2 (hideCompletions_surfaces _)))).
  - rewrite (close_connected T c HrootT); [|by rewrite Hconns].
    rewrite Heds, lookup_delete_eq.
    rewrite (setEditors_id _ T) by (rewrite Heds; apply delete_delete_eq).
    rewrite (setDocumentVersions_id _ T) by (rewrite Hvers; apply delete_delete_eq).
    apply bind_thrown, removeEventHandlers_undefined.
Qed.

End OpenClose.

(** ** The change stream *)

Section Changes.

Import Eff CodeMirror Lsp Workspace.

Context (h : Host) (uri : string) (c : LspConnection).

(** The [didChange] of a buffer. *)
Let didChange (s : State) (buffered : list (nat * list EditorChange)) : Effect :=
  Call (conn c)
    (textDocumentChanged uri (Js.preIncrement (documentVersions s !! uri))
       (contentChangesOf h c s buffered)).

(** The state the [map] stage leaves. *)
Let mapped (s : State) (buffered : list (nat * list EditorChange)) : State :=
  setTrace (fun t => t ++ [didChange s buffered])
    (setDocumentVersions <[uri := Js.preIncrement (documentVersions s !! uri)]> s).

Lemma onChanges_run s cm cs0 rest :
  onChanges h uri c ((cm, cs0) :: rest) s
  = bind (changesFilter (cm, lastChange ((cm, cs0) :: rest)))
      (fun b => if b
                then changesSubscriber h uri c (cm, lastChange ((cm, cs0) :: rest))
                else ret tt)
      (mapped s ((cm, cs0) :: rest)).
Proof.
  unfold onChanges, EventStream.map, EventStream.filter, changesTransform.
  run. autorewrite with state. reflexivity.
Qed.

Lemma length_zero_empty (l : string) : (String.length l =? 0) = true <-> l = "".
Proof. destruct l; cbn; split; congruence. Qed.

(** The test of the [filter] stage says what the words say. *)
Lemma textRemoved_isDeletion change : textRemoved change = true <-> isDeletion change.
Proof.
  unfold textRemoved, isDeletion. rewrite orb_true_iff, forallb_forall.
  assert ((match origin change with Some o => String.eqb o "+delete" | None => false end
           = true) <-> origin change = Some "+delete") as ->.
  { destruct (origin change) as [o|]; [|split; discriminate].
    rewrite String.eqb_eq. split; congruence. }
  rewrite Forall_forall.
  split; (intros [Ho|Ht]; [by left|right]); intros l Hl.
  - apply length_zero_empty, Ht, list_elem_of_In, Hl.
  - apply length_zero_empty, Ht, list_elem_of_In, Hl.
Qed.

(** A deletion stops at the filter, which hides both surfaces. *)
Lemma onChanges_deletion s cm cs0 rest change :
  lastChange ((cm, cs0) :: rest) = Some change ->
  textRemoved change = true ->
  onChanges h uri c ((cm, cs0) :: rest) s
  = (Ok tt,
     updated cm (setSignatureHelpShown false)
       (setTrace (fun t => t ++ [RemoveSignatureHelp cm])
          (updated cm Completion.hideCompletions
             (setTrace (fun t => t ++ [HideCompletions cm])
                (mapped s ((cm, cs0) :: rest)))))).
Proof.
  intros Hlast Hdel. rewrite onChanges_run, Hlast.
  unfold changesFilter. rewrite Hdel. by run.
Qed.

(** Anything else reaches the subscriber, which takes the branch that
    is due. *)
Lemma onChanges_insertion s cm cs0 rest change :
  lastChange ((cm, cs0) :: rest) = Some change ->
  textRemoved change = false ->
  let s' := exec (onChanges h uri c ((cm, cs0) :: rest)) s in
  let pos := getCursor (heap s cm) in
  trace s'
  = trace s
    ++ didChange s ((cm, cs0) :: rest)
       :: reaction h uri c cm pos (lastLine change)
            (branchFor c (getTokenAt (heap s cm) pos) (lastLine change))
  /\ documentVersions s'
     = <[uri := Js.preIncrement (documentVersions s !! uri)]> (documentVersions s).
Proof.
  intros Hlast Hdel. cbn zeta. unfold exec. rewrite onChanges_run, Hlast.
  unfold changesFilter. rewrite Hdel. run.
  unfold changesSubscriber, branchFor, lastLine. run.
  change (heap (mapped s ((cm, cs0) :: rest)) cm) with (heap s cm).
  destruct (identifierLike (getTokenAt (heap s cm) (getCursor (heap s cm))));
    [|destruct (includes (completionTriggers (capabilities c)) (last (text change)));
      [|destruct (includes (signatureHelpTriggers (capabilities c)) (last (text change))
                  || includes (signatureHelpRetriggers (capabilities c))
                       (last (text change)))]].
  all: run; cbn [snd reaction]; unfold mapped; autorewrite with state; cbv beta.
  all: by rewrite <- !app_assoc.
Qed.

(** Whatever the buffer, one [didChange] goes out, first, and the
    version is incremented once. *)
Lemma onChanges_one_didChange s cm cs0 rest :
  let s' := exec (onChanges h uri c ((cm, cs0) :: rest)) s in
  exists after,
    trace s' = trace s ++ didChange s ((cm, cs0) :: rest) :: after
    /\ List.filter isDidChange after = []
    /\ documentVersions s'
       = <[uri := Js.preIncrement (documentVersions s !! uri)]> (documentVersions s).
Proof.
  cbn zeta. destruct (lastChange ((cm, cs0) :: rest)) as [change|] eqn:Hlast.
  - destruct (textRemoved change) eqn:Hdel.
    + exists [HideCompletions cm; RemoveSignatureHelp cm].
      unfold exec. rewrite (onChanges_deletion s cm cs0 rest change Hlast Hdel).
      cbn [snd]. unfold mapped. autorewrite with state. cbv beta.
      by rewrite <- !app_assoc.
    + destruct (onChanges_insertion s cm cs0 rest change Hlast Hdel) as [Ht Hv].
      eexists. split; [exact Ht|]. split; [|exact Hv].
      by destruct (branchFor c _ _).
  - exists []. unfold exec. rewrite onChanges_run, Hlast.
    unfold changesFilter. run. cbn [snd]. unfold mapped. by autorewrite with state.
Qed.

(** C4. A change batch whose last change is a deletion (its origin is
    the explicit delete, or every line of its replacement text is empty)
    sends its [didChange] and then only hides the completion popup and
    the signature help: no completion request and no signature-help
    request is issued, and neither surface is shown afterwards. *)
Theorem deletion_suppresses_and_requests_nothing s cm cs0 rest change :
  lastChange ((cm, cs0) :: rest) = Some change ->
  isDeletion change ->
  let s' := exec (onChanges h uri c ((cm, cs0) :: rest)) s in
  since s s'
  = [didChange s ((cm, cs0) :: rest); HideCompletions cm; RemoveSignatureHelp cm]
  /\ List.filter isRequest (since s s') = []
  /\ completionActive (heap s' cm) = None
  /\ signatureHelpShown (heap s' cm) = false.
Proof.
  intros Hlast Hdel%textRemoved_isDeletion s'. subst s'. unfold exec.
  rewrite (onChanges_deletion s cm cs0 rest change Hlast Hdel). cbn [snd].
  match goal with |- since s ?x = _ /\ _ => set (s' := x) end.
  assert (since s s'
          = [didChange s ((cm, cs0) :: rest); HideCompletions cm; RemoveSignatureHelp cm])
    as Hsince.
  { apply since_app. subst s'. unfold mapped. autorewrite with state. cbv beta.
    by rewrite <- !app_assoc. }
  rewrite Hsince. split; [done|]. split; [done|].
  subst s'. autorewrite with state. split; [|done].
  unfold setSignatureHelpShown. cbn [completionActive]. apply hideCompletions_closes.
Qed.

(** C5, amended. For every change batch whose last change is no
    deletion, after the [didChange] exactly one of the four branches
    fires, the first whose condition holds: (1) the token at the cursor is
    identifier-, property- or type-like: signature help is suppressed,
    then a completion request of kind "invoked" is issued; (2) else the
    last line of the inserted text, taken whole, is one of the declared
    completion trigger characters: signature help is suppressed, then a
    completion request of kind "trigger character" carrying it is issued;
    (3) else it is a declared signature-help trigger or re-trigger
    character: completion and signature help are suppressed, then a
    signature-help request of kind "trigger character" is issued; (4) else
    both are suppressed and nothing is requested.  A trigger that is not
    declared for completion causes no completion request of kind
    "trigger character". *)
Theorem one_trigger_branch_fires s cm cs0 rest change :
  lastChange ((cm, cs0) :: rest) = Some change ->
  ~ isDeletion change ->
  let s' := exec (onChanges h uri c ((cm, cs0) :: rest)) s in
  let pos := getCursor (heap s cm) in
  let token := getTokenAt (heap s cm) pos in
  let b := branchFor c token (lastLine change) in
  since s s'
  = didChange s ((cm, cs0) :: rest) :: reaction h uri c cm pos (lastLine change) b
  /\ (forall b',
        since s s'
        = didChange s ((cm, cs0) :: rest) :: reaction h uri c cm pos (lastLine change) b' ->
        b' = b)
  /\ (includes (completionTriggers (capabilities c)) (lastLine change) = false ->
      forall p character,
        Call (conn c)
          (getCompletion uri p (mkCompletionContext TriggerCharacter character))
        ∉ since s s').
Proof.
  intros Hlast Hdel s' pos token b.
  assert (textRemoved change = false) as Hkeep.
  { destruct (textRemoved change) eqn:E; [|done].
    by apply textRemoved_isDeletion in E. }
  destruct (onChanges_insertion s cm cs0 rest change Hlast Hkeep) as [Ht _].
  fold s' pos token b in Ht. apply since_app in Ht. rewrite Ht.
  split; [done|]. split.
  - intros b' Hb'. injection Hb' as Hb'.
    destruct b, b'; cbn in Hb'; congruence.
  - intros Hnot p character Hin.
    apply elem_of_cons in Hin as [Hin|Hin]; [discriminate|].
    subst b. unfold branchFor in Hin. rewrite Hnot in Hin.
    destruct (identifierLike token);
      [|destruct (includes (signatureHelpTriggers (capabilities c)) (lastLine change)
                  || includes (signatureHelpRetriggers (capabilities c))
                       (lastLine change))].
    all: cbn [reaction] in Hin.
    all: repeat (apply elem_of_cons in Hin as [Hin|Hin]; [discriminate|]).
    all: by apply elem_of_nil in Hin.
Qed.

End Changes.

(** ** One notification per burst of edits *)

Section Debounced.

Import Eff EventStream.
Context {W T : Type} (ms : nat) (cb : Subscriber W (list T)).

Lemma run_app {S} (step : Tick T -> S * W -> S * W) xs ys sw :
  run step (xs ++ ys) sw = run step ys (run step xs sw).
Proof. unfold run. apply fold_left_app. Qed.

(** While the values keep coming within the window, they are buffered
    and the subscriber is not called. *)
Lemma debouncedBuffer_buffers rest buf w :
  Forall (fun p : nat * T => fst p < ms) rest ->
  run (debouncedBuffer ms cb)
    (flat_map (fun '(gap, x) => [Elapse gap; Emit x]) rest)
    (mkDebounced buf (Some ms), w)
  = (mkDebounced (buf ++ List.map snd rest) (Some ms), w).
Proof.
  intros Hgaps. revert buf.
  induction Hgaps as [|[gap x] rest Hgap _ IH]; intros buf.
  - cbn. by rewrite app_nil_r.
  - cbn [flat_map List.map snd app]. cbn [fst] in Hgap.
    change (run (debouncedBuffer ms cb) (Elapse gap :: Emit x :: ?l) ?sw)
      with (run (debouncedBuffer ms cb) l
              (debouncedBuffer ms cb (Emit x) (debouncedBuffer ms cb (Elapse gap) sw))).
    cbn [debouncedBuffer timeout buffer].
    destruct (ms <=? gap) eqn:E; [apply Nat.leb_le in E; lia|].
    cbn [debouncedBuffer timeout buffer]. rewrite IH. by rewrite <- app_assoc.
Qed.

(** A burst is delivered once, whole and in order, when it is over. *)
Lemma debouncedBuffer_burst first rest quiet w :
  Forall (fun p : nat * T => fst p < ms) rest ->
  ms <= quiet ->
  run (debouncedBuffer ms cb) (burst first rest quiet) (mkDebounced [] None, w)
  = (mkDebounced [] None, exec (cb (first :: List.map snd rest)) w).
Proof.
  intros Hgaps Hquiet. unfold burst.
  change (run (debouncedBuffer ms cb) (Emit first :: ?l) ?sw)
    with (run (debouncedBuffer ms cb) l (debouncedBuffer ms cb (Emit first) sw)).
  cbn [debouncedBuffer buffer app]. rewrite run_app.
  rewrite debouncedBuffer_buffers by done.
  cbn [run fold_left debouncedBuffer timeout buffer app].
  apply Nat.leb_le in Hquiet. by rewrite Hquiet.
Qed.

End Debounced.

Section OneDidChange.

Import Eff CodeMirror Lsp Workspace EventStream.

Context (h : Host) (uri : string) (c : LspConnection).

(** C1. For every burst of edits of an open document that falls into one
    debounce window (each edit less than [CHANGES_FRAME] ms after the one
    before, then [CHANGES_FRAME] ms of quiet), exactly one [didChange] is
    sent; its version is the prior version plus 1, which is also the
    counter afterwards, however many edits were batched; its content
    changes are the converted change objects of all the events, in order
    and one per change object, when the connection syncs incrementally,
    and the single whole text of the document otherwise. *)
Theorem burst_sends_one_didChange s v first rest quiet :
  documentVersions s !! uri = Some (Js.Num v) ->
  Forall (fun p : nat * (nat * list EditorChange) => fst p < CHANGES_FRAME) rest ->
  CHANGES_FRAME <= quiet ->
  let events := first :: List.map snd rest in
  let contentChanges :=
    if syncsIncrementally (capabilities c)
    then flat_map (fun ev => List.map (lspChange h) (snd ev)) events
    else [Full (getValue (heap s (fst first)))] in
  let s' := snd (run (changeStream h uri c) (burst first rest quiet)
                   (mkDebounced [] None, s)) in
  List.filter isDidChange (since s s')
  = [Call (conn c) (textDocumentChanged uri (Js.Num (v + 1)) contentChanges)]
  /\ documentVersions s' !! uri = Some (Js.Num (v + 1))
  /\ length (flat_map (fun ev => List.map (lspChange h) (snd ev)) events)
     = list_sum (List.map (fun ev => length (snd ev)) events).
Proof.
  intros Hv Hgaps Hquiet events contentChanges s'.
  subst s'. unfold changeStream. rewrite debouncedBuffer_burst by done.
  cbn [snd]. destruct first as [cm cs0]. fold events.
  destruct (onChanges_one_didChange h uri c s cm cs0 (List.map snd rest))
    as (after & Htrace & Hafter & Hversions).
  fold events in Htrace, Hversions.
  rewrite Hv in Htrace, Hversions. cbn [Js.preIncrement] in Htrace, Hversions.
  apply since_app in Htrace. rewrite Htrace, Hversions.
  split; [|split].
  - cbn [List.filter isDidChange]. rewrite Hafter. do 3 f_equal.
    unfold contentChangesOf, contentChanges. subst events. cbn [fst].
    destruct (syncsIncrementally (capabilities c)); [|done].
    apply flat_map_ext. by intros [? ?].
  - apply lookup_insert_eq.
  - clear. induction events as [|ev evs IH]; [done|].
    cbn [flat_map List.map list_sum]. by rewrite length_app, length_map, IH.
Qed.

End OneDidChange.

(** ** Saving *)

Section Save.

Import Eff CodeMirror Lsp Workspace.

Context (h : Host) (root path : string) (assoc : LanguageAssociation)
  (serverId : string).

Let uri := root +:+ Js.stripLeadingSlashes path.

Hypothesis Hassoc : getLanguageAssociation h uri = Some assoc.
Hypothesis Hserver : head (languageServerIds assoc) = Some serverId.
Hypothesis Htruthy : Js.truthy serverId = true.

(** The call: [willSave], then the request for the pre-save edits. *)
Lemma saveTextDocument_run s c editor :
  rootUri s = root ->
  connections s !! serverId = Some c ->
  editors s !! uri = Some editor ->
  saveTextDocument h path s
  = (Ok (AwaitEdits uri c editor),
     setTrace (fun t => t ++ [Call (conn c) (getEditsBeforeSave uri Manual)])
       (setTrace (fun t => t ++ [Call (conn c) (textDocumentWillSave uri Manual)]) s)).
Proof.
  intros Hroot Hconn Hed. unfold saveTextDocument. run. unfold getDocumentUri.
  rewrite Hroot. fold uri. rewrite Hassoc, Hserver, Htruthy, Hconn, Hed. cbn [negb].
  by run.
Qed.

(** C6, amended. For every save of an open document whose connection is
    in the table: [willSave] (reason manual) is sent, then the pre-save
    edits are requested.  When the answer is [null], [didSave] with the
    current full text follows at once, with no delay.  When the answer is
    a list of edits, empty or not, the edits are applied to the local
    buffer, a delay of 1.5 times the change-batching window (75 ms)
    elapses, and then [didSave] is sent with the text after the edits. *)
Theorem save_sends_willSave_then_didSave s c editor :
  rootUri s = root ->
  connections s !! serverId = Some c ->
  editors s !! uri = Some editor ->
  since s (exec (save h path None) s)
  = [ Call (conn c) (textDocumentWillSave uri Manual);
      Call (conn c) (getEditsBeforeSave uri Manual);
      Call (conn c) (textDocumentSaved uri (getValue (heap s editor))) ]
  /\ (forall edits,
        let s' := exec (save h path (Some edits)) s in
        since s s'
        = [ Call (conn c) (textDocumentWillSave uri Manual);
            Call (conn c) (getEditsBeforeSave uri Manual);
            AppliedEdits editor edits;
            Delay saveDelay;
            Call (conn c)
              (textDocumentSaved uri (getValue (applyEdits h edits (heap s editor)))) ]
        /\ heap s' editor = applyEdits h edits (heap s editor))
  /\ 2 * saveDelay = 3 * CHANGES_FRAME.
Proof.
  intros Hroot Hconn Hed.
  pose proof (saveTextDocument_run s c editor Hroot Hconn Hed) as Hcall.
  split; [|split; [|reflexivity]].
  - apply since_app. unfold exec, save.
    rewrite (bind_ok _ _ _ _ _ Hcall). unfold editsReceived, sendSaved. run.
    unfold delayElapsed. run. cbn [snd]. autorewrite with state. cbv beta.
    by rewrite <- !app_assoc.
  - intros edits s'. subst s'. unfold exec, save.
    rewrite (bind_ok _ _ _ _ _ Hcall). unfold editsReceived. run.
    unfold delayElapsed, sendSaved. run. cbn [snd]. split.
    + apply since_app. autorewrite with state. cbv beta.
      by rewrite <- !app_assoc.
    + by autorewrite with state.
Qed.

End Save.

(** C6, as stated, fails: an answer that is an empty list brings no edit,
  and the delay is taken all the same. *)
Lemma save_with_empty_edit_list_is_delayed :
~ (forall edits,
     Workspace.noEditsReturned edits ->
     List.filter Workspace.isDelay
       (Workspace.since Scenario.opened
          (Eff.exec (Workspace.save Scenario.host "a.ts" edits) Scenario.opened))
     = []).
Proof.
intros Hclaim. specialize (Hclaim (Some []) (or_intror eq_refl)).
vm_compute in Hclaim. discriminate Hclaim.
Qed.

(** ** Connecting *)

Section Connect.

Import Eff CodeMirror Lsp Workspace.

(** A connection that is in the table is shared: the call returns it at
    once and opens nothing. *)
Lemma connect_returns_existing s serverId c :
  connections s !! serverId = Some c ->
  connect serverId s = (Connected (Some c), s).
Proof. intros Hc. unfold connect. by rewrite Hc. Qed.

(** From its second resumption on, a call has its connection in the
    table, handshake or not: a call made from then on shares it. *)
Lemma connect_shares_during_handshake h s serverId connectionString transport :
  let '(k, s') := resume h (AwaitMessageConnection serverId connectionString transport) s in
  exists c,
    k = AwaitInitialize serverId c
    /\ connect serverId s' = (Connected (Some c), s')
    /\ transportsOpened s' = transportsOpened s.
Proof.
  cbn [resume]. eexists. split; [reflexivity|]. split.
  - apply connect_returns_existing. unfold exec. run. cbn [snd].
    autorewrite with state. apply lookup_insert_eq.
  - unfold transportsOpened, exec. run. cbn [snd]. autorewrite with state. cbv beta.
    rewrite !List.filter_app. cbn [List.filter]. by rewrite !app_nil_r.
Qed.

(** A call that finds no entry opens a transport when it is resumed,
    whatever is in the table by then. *)
Lemma resume_opens_a_transport h s serverId :
  Js.truthy (getConnectionString h serverId) = true ->
  length (transportsOpened
            (snd (resume h (AwaitConnectionString serverId) s)))
  = S (length (transportsOpened s)).
Proof.
  intros Hcs. cbn [resume]. rewrite Hcs. cbn [negb snd].
  unfold transportsOpened, exec. run. cbn [snd]. autorewrite with state. cbv beta.
  rewrite List.filter_app, length_app.
  destruct (isWebSocketUrl (getConnectionString h serverId)); cbn; lia.
Qed.

(** C2 fails on the code. Two calls of [connect] for the same server,
    the second made while the first awaits its connection string: both
    find the table empty, each opens a transport of its own, the calls
    return different connections, and the table keeps the second only. *)
Theorem racing_connects_open_two_connections :
  let '(k1, s1) := connect "ts" Scenario.workspace in
  let '(k2, s2) := connect "ts" s1 in
  let '(ks, s3) := interleave Scenario.host [0; 1; 0; 1; 0; 1] [k1; k2] s2 in
  ks = [ Connected (Some (mkLspConnection 0 Scenario.declared));
         Connected (Some (mkLspConnection 1 Scenario.declared)) ]
  /\ transportsOpened s3
     = [NewWebSocket "ws://localhost:9990" 0; NewWebSocket "ws://localhost:9990" 1]
  /\ connections s3 !! "ts" = Some (mkLspConnection 1 Scenario.declared).
Proof. vm_compute. repeat split. Qed.

End Connect.

(** ** The order of the completion popup *)

Section DuplicateLabels.

Import CodeMirror Completion.

(** C10 fails on the code where two items share a label and differ in
    their filter text: the score table has one entry per label, the last
    item with the label writes it, and the popup is ordered by the table.
    Typed "abc", the item whose filter text is "abc" comes after the one
    whose filter text is "ab". *)
Theorem duplicate_labels_break_the_order :
  let exact := mkItem "x" (Some "abc") in
  let partial := mkItem "y" (Some "ab") in
  let other := mkItem "x" (Some "zzz") in
  let shown :=
    showInvokedCompletions [exact; partial; other]
      (mkRange (mkPosition 0 0) (mkPosition 0 3)) (Scenario.editor "abc") in
  option_map (fun hints => List.map hint_item (hints_list hints)) (completionActive shown)
  = Some [partial; exact; other]
  /\ (ownScore "abc" partial < ownScore "abc" exact)%Q
  /\ ~ StronglySorted (fun a b => (ownScore "abc" b <= ownScore "abc" a)%Q)
         [partial; exact; other].
Proof.
  cbn zeta. split; [by vm_compute|]. split; [by vm_compute|].
  intros Hs. apply StronglySorted_inv in Hs as [_ Hall].
  apply Forall_inv in Hall. vm_compute in Hall. by apply Hall.
Qed.

End DuplicateLabels.

(** ** The scenario, run *)

Section ScenarioRuns.

Import Eff CodeMirror Lsp Workspace Scenario.

Let uri := "file:///project/a.ts".
Let association := mkLanguageAssociation "typescript" ["ts"].

(** C5, as stated, fails: text that is pasted and ends in a declared
    completion trigger character ("a." here, "." being declared) has that
    character as its last inserted character, and the subscriber, which
    looks up the whole line "a.", requests nothing. *)
Lemma pasted_trigger_character_requests_nothing :
  ~ (forall change,
       ~ isDeletion change ->
       let s' := exec (onChanges host uri server [(0, [change])]) opened in
       let pos := getCursor (heap opened 0) in
       since opened s'
       = Call (conn server)
           (textDocumentChanged uri (Js.preIncrement (documentVersions opened !! uri))
              (contentChangesOf host server opened [(0, [change])]))
         :: reaction host uri server 0 pos (lastInsertedCharacter change)
              (branchFor server (getTokenAt (heap opened 0) pos)
                 (lastInsertedCharacter change))).
Proof.
  intros Hclaim. specialize (Hclaim (typed "a.")).
  assert (~ isDeletion (typed "a.")) as Hins.
  { intros [Ho|Ht]; [discriminate Ho|]. apply Forall_inv in Ht. discriminate Ht. }
  specialize (Hclaim Hins). vm_compute in Hclaim. discriminate Hclaim.
Qed.

Lemma burst_sends_one_didChange_witness :
  documentVersions opened !! uri = Some (Js.Num 1)
  /\ List.filter isDidChange
       (since opened
          (snd (EventStream.run (changeStream host uri server)
                  (EventStream.burst (0, [typed "a"]) [(10, (0, [typed "b"]))] 50)
                  (EventStream.mkDebounced [] None, opened))))
     = [Call 0 (textDocumentChanged uri (Js.Num 2)
                  [lspChange host (typed "a"); lspChange host (typed "b")])].
Proof.
  assert (documentVersions opened !! uri = Some (Js.Num 1)) as Hopen by (by vm_compute).
  assert (Forall (fun p : nat * (nat * list EditorChange) => fst p < CHANGES_FRAME)
            [(10, (0, [typed "b"]))]) as Hgaps
    by (constructor; [cbn; unfold CHANGES_FRAME; lia|constructor]).
  assert (CHANGES_FRAME <= 50) as Hquiet by (unfold CHANGES_FRAME; lia).
  destruct (burst_sends_one_didChange host uri server opened 1
              (0, [typed "a"]) [(10, (0, [typed "b"]))] 50 Hopen Hgaps Hquiet)
    as [Hone _].
  split; [exact Hopen|]. vm_compute in Hone. vm_compute. exact Hone.
Defined.

Lemma didOpen_carries_version_1_witness :
  getLanguageAssociation host uri = Some association
  /\ since connected opened
     = [Call 0 (textDocumentOpened uri "typescript" "a." (Js.Num 1))].
Proof.
  split; [reflexivity|].
  destruct (didOpen_carries_version_1 host "file:///project/" "a.ts" association "ts"
              eq_refl eq_refl eq_refl) as [Hopen _].
  destruct (Hopen connected 0 server eq_refl) as [Hsent _].
  vm_compute in Hsent. vm_compute. exact Hsent.
Defined.

Lemma deletion_suppresses_and_requests_nothing_witness :
  isDeletion (deleted ".")
  /\ List.filter isRequest
       (since opened (exec (onChanges host uri server [(0, [deleted "."])]) opened))
     = [].
Proof.
  assert (isDeletion (deleted ".")) as Hdel by (left; reflexivity).
  split; [exact Hdel|].
  destruct (deletion_suppresses_and_requests_nothing host uri server opened 0
              [deleted "."] [] (deleted ".") eq_refl Hdel) as (_ & Hnone & _).
  exact Hnone.
Defined.

Lemma one_trigger_branch_fires_witness :
  ~ isDeletion (typed ".")
  /\ since opened (exec (onChanges host uri server [(0, [typed "."])]) opened)
     = [ Call 0 (textDocumentChanged uri (Js.Num 2) [lspChange host (typed ".")]);
         RemoveSignatureHelp 0;
         Call 0 (getCompletion uri (mkPosition 0 2)
                   (mkCompletionContext TriggerCharacter (Some "."))) ].
Proof.
  assert (~ isDeletion (typed ".")) as Hins.
  { intros [Ho|Ht]; [discriminate Ho|]. apply Forall_inv in Ht. discriminate Ht. }
  split; [exact Hins|].
  destruct (one_trigger_branch_fires host uri server opened 0 [typed "."] []
              (typed ".") eq_refl Hins) as [Hfires _].
  vm_compute in Hfires. vm_compute. exact Hfires.
Defined.

Lemma save_sends_willSave_then_didSave_witness :
  editors opened !! uri = Some 0
  /\ since opened (exec (save host "a.ts" None) opened)
     = [ Call 0 (textDocumentWillSave uri Manual);
         Call 0 (getEditsBeforeSave uri Manual);
         Call 0 (textDocumentSaved uri "a.") ].
Proof.
  assert (rootUri opened = "file:///project/") as Hroot by (by vm_compute).
  assert (connections opened !! "ts" = Some server) as Hconn by (by vm_compute).
  assert (editors opened !! uri = Some 0) as Hed by (by vm_compute).
  split; [exact Hed|].
  destruct (save_sends_willSave_then_didSave host "file:///project/" "a.ts"
              association "ts" eq_refl eq_refl eq_refl opened server 0 Hroot Hconn Hed)
    as [Hsaved _].
  vm_compute in Hsaved. vm_compute. exact Hsaved.
Defined.

Lemma close_disposes_once_and_second_close_throws_witness :
  NoDup (registrations (heap opened 0))
  /\ fst (closeTextDocument host "a.ts" (exec (closeTextDocument host "a.ts") opened))
     = Thrown "TypeError".
Proof.
  assert (NoDup (registrations (heap opened 0))) as Hnd.
  { apply (bool_decide_unpack _). by vm_compute. }
  assert (rootUri opened = "file:///project/") as Hroot by (by vm_compute).
  assert (connections opened !! "ts" = Some server) as Hconn by (by vm_compute).
  assert (editors opened !! uri = Some 0) as Hed by (by vm_compute).
  assert (subscriptionDisposers opened !! 0
          = Some (List.map (pair 0) (registrations (heap opened 0)))) as Hsub
    by (by vm_compute).
  split; [exact Hnd|].
  destruct (close_disposes_once_and_second_close_throws host "file:///project/" "a.ts"
              association "ts" eq_refl eq_refl eq_refl opened server 0
              Hroot Hconn Hed Hsub Hnd)
    as (_ & _ & _ & _ & _ & _ & _ & _ & Hsecond).
  by rewrite Hsecond.
Defined.

End ScenarioRuns.

(* ===================================================================== *)
(** * Part III. Further properties of the code                            *)
(* ===================================================================== *)

(** ** More on the event streams *)

Section SkipDuplicatesOutput.

Import EventStream.
Context {T : Type} (equals : T -> T -> bool).

(** One more value from the source: it is appended to what was passed on
    unless it equals the value passed on last. *)
Lemma emitted_snoc xs x :
  emitted equals (xs ++ [x])
  = emitted equals xs
    ++ (if match last (emitted equals xs) with
           | None => true
           | Some p => negb (equals p x)
           end
        then [x] else []).
Proof.
  pose proof (prevAfter_last equals xs) as Hprev.
  unfold emitted at 1. rewrite deliver_snoc.
  unfold prevAfter, emitted in Hprev |- *.
  destruct (deliver (skipDuplicates equals record) xs (None, [])) as [prev log].
  cbn [fst snd] in Hprev |- *. subst prev.
  rewrite skipDuplicates_step.
  destruct (match last log with None => true | Some p => negb (equals p x) end);
    cbn [snd]; [done|by rewrite app_nil_r].
Qed.

Lemma emitted_nil : emitted equals [] = [].
Proof. reflexivity. Qed.

Lemma changing_snoc l x :
  changing equals (l ++ [x])
  <-> changing equals l /\ (forall p, last l = Some p -> equals p x = false).
Proof.
  unfold changing. split.
  - intros Hall. split.
    + intros i a b Ha Hb. apply (Hall i a b).
      * by apply lookup_app_l_Some.
      * by apply lookup_app_l_Some.
    + intros p Hp. destruct l as [|a0 l0] using rev_ind; [done|].
      rewrite last_snoc in Hp. injection Hp as ->.
      apply (Hall (length l0) p x).
      * rewrite lookup_app_l by (rewrite length_app; cbn; lia).
        by apply list_lookup_middle.
      * apply list_lookup_middle. rewrite length_app. cbn. lia.
  - intros [Hl Hlast] i a b Ha Hb.
    destruct (decide (S i < length l)) as [Hlt|Hge].
    + rewrite lookup_app_l in Ha by lia. rewrite lookup_app_l in Hb by lia. eauto.
    + assert (S i = length l) as Hi.
      { apply lookup_lt_Some in Hb. rewrite length_app in Hb. cbn in Hb. lia. }
      rewrite lookup_app_l in Ha by lia.
      rewrite Hi, (list_lookup_middle l [] x (length l) eq_refl) in Hb.
      injection Hb as <-. apply Hlast.
      rewrite last_lookup. rewrite <- Hi. exact Ha.
Qed.

Lemma emitted_sublist xs : emitted equals xs `sublist_of` xs.
Proof.
  induction xs as [|x xs IH] using rev_ind; [done|].
  rewrite emitted_snoc.
  destruct (match last (emitted equals xs) with
            | None => true | Some p => negb (equals p x) end).
  - by apply sublist_app.
  - rewrite app_nil_r. by apply sublist_inserts_r.
Qed.

Lemma emitted_changing xs : changing equals (emitted equals xs).
Proof.
  induction xs as [|x xs IH] using rev_ind.
  - intros i a b Ha. by rewrite emitted_nil in Ha.
  - rewrite emitted_snoc.
    destruct (last (emitted equals xs)) as [p|] eqn:Hp.
    + destruct (equals p x) eqn:E; cbn [negb].
      * by rewrite app_nil_r.
      * apply changing_snoc. split; [done|]. intros p' Hp'. congruence.
    + apply changing_snoc. split; [done|]. intros p' Hp'. congruence.
Qed.

Lemma emitted_fixed l : changing equals l -> emitted equals l = l.
Proof.
  induction l as [|x l IH] using rev_ind; intros Hl; [done|].
  apply changing_snoc in Hl as [Hl Hlast].
  rewrite emitted_snoc, (IH Hl).
  destruct (last l) as [p|]; [|done]. by rewrite (Hlast p eq_refl).
Qed.

(** X1. What a subscription of [skipDuplicates(equals)] passes on is a
    subsequence of what it receives in which no value equals the one
    before it; a sequence that already is like that is passed on whole;
    so a second [skipDuplicates(equals)] behind the first changes
    nothing. *)
Theorem skipDuplicates_output_never_repeats xs :
  emitted equals xs `sublist_of` xs
  /\ changing equals (emitted equals xs)
  /\ (changing equals xs -> emitted equals xs = xs)
  /\ emitted equals (emitted equals xs) = emitted equals xs.
Proof.
  split; [apply emitted_sublist|]. split; [apply emitted_changing|].
  split; [apply emitted_fixed|]. apply emitted_fixed, emitted_changing.
Qed.

(** Values that all equal the first one are dropped. *)
Lemma emitted_run x0 xs :
  Forall (fun x => equals x0 x = true) xs -> emitted equals (x0 :: xs) = [x0].
Proof.
  induction xs as [|x xs IH] using rev_ind; intros Hall; [done|].
  apply Forall_app in Hall as [Hxs Hx]. apply Forall_inv in Hx.
  rewrite app_comm_cons, emitted_snoc, (IH Hxs). cbn [last].
  by rewrite Hx.
Qed.

End SkipDuplicatesOutput.

Lemma skipDuplicates_output_never_repeats_witness :
  EventStream.changing Nat.eqb [1; 2; 1]
  /\ EventStream.emitted Nat.eqb [1; 2; 1] = [1; 2; 1].
Proof.
  assert (EventStream.changing Nat.eqb [1; 2; 1]) as Hc.
  { intros [|[|[|i]]] a b Ha Hb; cbn in Ha, Hb; try discriminate;
      injection Ha as <-; injection Hb as <-; reflexivity. }
  split; [exact Hc|].
  destruct (skipDuplicates_output_never_repeats Nat.eqb [1; 2; 1]) as (_ & _ & Hfix & _).
  exact (Hfix Hc).
Defined.

Section Hover.

Import CodeMirror Workspace EventStream.

Context (editor : Editor Completion.Hints).

Lemma samePosition_refl p : samePosition editor p p = true.
Proof. unfold samePosition. by rewrite !Nat.eqb_refl. Qed.

Lemma samePosition_sym p q : samePosition editor p q = samePosition editor q p.
Proof.
  unfold samePosition.
  rewrite (Nat.eqb_sym (line p)), (Nat.eqb_sym (ch p)).
  destruct (line q =? line p); cbn [negb]; [|done].
  destruct (ch q =? ch p); [done|].
  rewrite (String.eqb_sym (tok_string (getTokenAt editor p))).
  rewrite (Nat.eqb_sym (tok_start (getTokenAt editor p))).
  by rewrite (Nat.eqb_sym (tok_end (getTokenAt editor p))).
Qed.

Lemma samePosition_trans p q r :
  samePosition editor p q = true -> samePosition editor q r = true ->
  samePosition editor p r = true.
Proof.
  unfold samePosition. destruct p as [lp cp], q as [lq cq], r as [lr cr].
  cbn [line ch].
  destruct (Nat.eqb_spec lp lq) as [->|]; [|done].
  destruct (Nat.eqb_spec lq lr) as [->|]; [|done].
  rewrite ?Nat.eqb_refl. cbn [negb].
  destruct (Nat.eqb_spec cp cq) as [->|_]; [done|].
  destruct (Nat.eqb_spec cq cr) as [->|_].
  - intros H _. destruct (cp =? cr); [done|exact H].
  - intros [[H1 H2]%andb_true_iff H3]%andb_true_iff
           [[H4 H5]%andb_true_iff H6]%andb_true_iff.
    apply String.eqb_eq in H1, H4. apply Nat.eqb_eq in H2, H3, H5, H6.
    destruct (cp =? cr); [done|].
    rewrite H1, H4, H2, H5, H3, H6.
    by rewrite String.eqb_refl, !Nat.eqb_refl.
Qed.

(** X2. The positions of the mouseover stream are compared by line, then
    by column or token; on an editor that is not edited meanwhile this is
    an equivalence, and a run of positions in the token of the first one
    reaches the hover handler once, for the first position. *)
Theorem hover_in_one_token_is_handled_once p ps :
  Forall (fun q => samePosition editor p q = true) ps ->
  (forall a, samePosition editor a a = true)
  /\ (forall a b, samePosition editor a b = samePosition editor b a)
  /\ (forall a b c,
        samePosition editor a b = true -> samePosition editor b c = true ->
        samePosition editor a c = true)
  /\ emitted (samePosition editor) (p :: ps) = [p].
Proof.
  intros Hrun. split; [apply samePosition_refl|].
  split; [apply samePosition_sym|]. split; [apply samePosition_trans|].
  by apply emitted_run.
Qed.

End Hover.

Section DebounceTime.

Import Eff EventStream.
Context {W T : Type} (ms : nat) (cb : Subscriber W T).

Lemma run_cons {S} (step : Tick T -> S * W -> S * W) tick ticks sw :
  run step (tick :: ticks) sw = run step ticks (step tick sw).
Proof. reflexivity. Qed.

Lemma last_cons_default {A} (l : list A) d x : List.last (x :: l) d = List.last l x.
Proof.
  revert d x. induction l as [|y l IH]; intros d x; [done|].
  change (List.last (x :: y :: l) d) with (List.last (y :: l) d).
  by rewrite !IH.
Qed.

Lemma lastOf_cons (first : T) gap x rest :
  lastOf first ((gap, x) :: rest) = lastOf x rest.
Proof. unfold lastOf. cbn [List.map snd]. apply last_cons_default. Qed.

(** While the values keep coming within the window, the subscriber is
    not called and the timer holds the value received last. *)
Lemma debounceTime_pending rest x w :
  Forall (fun p : nat * T => fst p < ms) rest ->
  run (debounceTime ms cb)
    (flat_map (fun '(gap, x) => [Elapse gap; Emit x]) rest)
    (Some (ms, x), w)
  = (Some (ms, lastOf x rest), w).
Proof.
  intros Hgaps. revert x.
  induction Hgaps as [|[gap y] rest Hgap _ IH]; intros x; [done|].
  cbn [flat_map app]. rewrite !run_cons. cbn [fst] in Hgap.
  cbn [debounceTime].
  destruct (ms <=? gap) eqn:E; [apply Nat.leb_le in E; lia|].
  cbn [debounceTime]. rewrite IH. by rewrite lastOf_cons.
Qed.

Lemma debounceTime_burst first rest quiet w :
  Forall (fun p : nat * T => fst p < ms) rest ->
  ms <= quiet ->
  run (debounceTime ms cb) (burst first rest quiet) (None, w)
  = (None, exec (cb (lastOf first rest)) w).
Proof.
  intros Hgaps Hquiet. unfold burst. rewrite run_cons. cbn [debounceTime].
  rewrite run_app, debounceTime_pending by done.
  rewrite run_cons. cbn [debounceTime run fold_left].
  apply Nat.leb_le in Hquiet. by rewrite Hquiet.
Qed.

(** X3. [debounceTime(ms)] hands on one value per burst, the last one,
    when the burst is over: for bursts that follow one another, each made
    of values less than [ms] apart and ended by at least [ms] of quiet,
    the subscriber is called once per burst, in order, with the value the
    burst ended with, and no timer is left pending. *)
Theorem debounceTime_delivers_the_last_of_each_burst
  (bursts : list (T * list (nat * T) * nat)) w :
  Forall (fun '(first, rest, quiet) =>
            Forall (fun p : nat * T => fst p < ms) rest /\ ms <= quiet) bursts ->
  run (debounceTime ms cb)
    (flat_map (fun '(first, rest, quiet) => burst first rest quiet) bursts)
    (None, w)
  = (None, deliver cb (List.map (fun '(first, rest, _) => lastOf first rest) bursts) w).
Proof.
  intros Hall. revert w.
  induction Hall as [|[[first rest] quiet] bursts [Hgaps Hquiet] _ IH]; intros w; [done|].
  cbn [flat_map List.map]. rewrite run_app, debounceTime_burst by done.
  rewrite IH. reflexivity.
Qed.

End DebounceTime.

Lemma debounceTime_delivers_the_last_of_each_burst_witness :
  snd (EventStream.run (EventStream.debounceTime 100 EventStream.record)
         (EventStream.burst 1 [(10, 2); (99, 3)] 100
          ++ EventStream.burst 4 [] 250)
         (None, []))
  = [3; 4].
Proof.
  assert (Forall (fun '(first, rest, quiet) =>
                    Forall (fun p : nat * nat => fst p < 100) rest /\ 100 <= quiet)
            [(1, [(10, 2); (99, 3)], 100); (4, [], 250)]) as Hall.
  { repeat constructor; cbn; lia. }
  pose proof (debounceTime_delivers_the_last_of_each_burst 100 EventStream.record
                [(1, [(10, 2); (99, 3)], 100); (4, [], 250)] [] Hall) as Hrun.
  exact (f_equal snd Hrun).
Defined.

Section Operators.

Import Eff EventStream.
Context {T U : Type}.

Lemma deliver_app {W} (cb : Subscriber W T) xs ys w :
  deliver cb (xs ++ ys) w = deliver cb ys (deliver cb xs w).
Proof. unfold deliver. apply fold_left_app. Qed.

(** X4. The operators hand values on in the order of the pipeline: with
    functions that have no effect, [map(f)] hands on the image of every
    value, [filter(test)] the values that pass the test, and [filter]
    behind [map] tests the images; [tap(effect)] runs the effect on every
    value, each time before the subscriber gets the value itself. *)
Theorem operators_hand_on_in_order (f : T -> U) (test : U -> bool) (accept : T -> bool)
  (xs : list T) :
  deliver (map (fun x => ret (f x)) record) xs [] = List.map f xs
  /\ deliver (filter (fun x => ret (accept x)) record) xs [] = List.filter accept xs
  /\ deliver (map (fun x => ret (f x)) (filter (fun u => ret (test u)) record)) xs []
     = List.filter test (List.map f xs)
  /\ deliver (tap (fun x => modify (fun log => log ++ [inl x]))
                (fun x => modify (fun log => log ++ [inr x]))) xs []
     = flat_map (fun x => [inl x; inr x]) xs.
Proof.
  split; [|split; [|split]].
  - induction xs as [|x xs IH] using rev_ind; [done|].
    by rewrite deliver_app, IH, List.map_app.
  - induction xs as [|x xs IH] using rev_ind; [done|].
    rewrite deliver_app, IH, List.filter_app. cbn.
    unfold exec, filter, bind, ret, record, modify.
    by destruct (accept x); cbn; rewrite ?app_nil_r.
  - induction xs as [|x xs IH] using rev_ind; [done|].
    rewrite deliver_app, IH, List.map_app, List.filter_app. cbn.
    unfold exec, map, filter, bind, ret, record, modify.
    by destruct (test (f x)); cbn; rewrite ?app_nil_r.
  - induction xs as [|x xs IH] using rev_ind; [done|].
    rewrite deliver_app, IH, flat_map_app. cbn.
    unfold exec, tap, bind, modify. cbn. by rewrite <- app_assoc.
Qed.

End Operators.

(** ** The longest common subsequence *)

Section Lcs.

Import Completion.

Lemma get_lookup s k : String.get k s = chars s !! k.
Proof.
  revert k. induction s as [|c s IH]; intros [|k]; cbn; first [done|apply IH].
Qed.

Lemma length_chars s : length (chars s) = String.length s.
Proof. unfold chars. induction s as [|c s IH]; cbn; congruence. Qed.

Lemma lcsLength_nil_r u : lcsLength u [] = 0.
Proof. by destruct u. Qed.

Lemma lcsLength_cons a u b v :
  lcsLength (a :: u) (b :: v)
  = if Ascii.eqb a b then S (lcsLength u v)
    else Nat.max (lcsLength u (b :: v)) (lcsLength (a :: u) v).
Proof. reflexivity. Qed.

(** The recurrence is attained by a common subsequence. *)
Lemma lcsLength_common u v :
  exists l, l `sublist_of` u /\ l `sublist_of` v /\ length l = lcsLength u v.
Proof.
  revert v. induction u as [|a u IHu]; intros v.
  - exists []. split; [constructor|]. split; [apply sublist_nil_l|done].
  - induction v as [|b v IHv].
    + exists []. split; [apply sublist_nil_l|]. split; [constructor|done].
    + rewrite lcsLength_cons. destruct (Ascii.eqb_spec a b) as [->|Hne].
      * destruct (IHu v) as (l & Hu & Hv & Hlen).
        exists (b :: l). split; [by constructor|]. split; [by constructor|].
        cbn. by rewrite Hlen.
      * destruct (Nat.max_spec (lcsLength u (b :: v)) (lcsLength (a :: u) v))
          as [[_ ->]|[_ ->]].
        -- destruct IHv as (l & Hu & Hv & Hlen).
           exists l. split; [done|]. split; [by constructor|done].
        -- destruct (IHu (b :: v)) as (l & Hu & Hv & Hlen).
           exists l. split; [by constructor|]. by split.
Qed.

Lemma sublist_tail {A} (x : A) l k : x :: l `sublist_of` k -> l `sublist_of` k.
Proof. intros Hl. etrans; [|exact Hl]. by constructor. Qed.

(** No common subsequence is longer than the recurrence says. *)
Lemma lcsLength_longest u v l :
  l `sublist_of` u -> l `sublist_of` v -> length l <= lcsLength u v.
Proof.
  revert v l. induction u as [|a u IHu]; intros v l Hu Hv.
  - apply sublist_nil_r in Hu as ->. cbn. lia.
  - revert l Hu Hv. induction v as [|b v IHv]; intros l Hu Hv.
    + apply sublist_nil_r in Hv as ->. cbn. lia.
    + rewrite lcsLength_cons.
      apply sublist_cons_r in Hu as [Hu|(l' & -> & Hu)].
      * pose proof (IHu (b :: v) l Hu Hv) as Hle.
        destruct (Ascii.eqb a b); [|lia].
        apply sublist_cons_r in Hv as [Hv|(l' & -> & Hv)].
        -- pose proof (IHu v l Hu Hv). lia.
        -- pose proof (IHu v l' (sublist_tail _ _ _ Hu) Hv). cbn. lia.
      * apply sublist_cons_r in Hv as [Hv|(l'' & Heq & Hv)].
        -- pose proof (IHv (a :: l') (sublist_skip a _ _ Hu) Hv) as Hle.
           destruct (Ascii.eqb a b); [|lia].
           pose proof (IHu v l' Hu (sublist_tail _ _ _ Hv)). cbn. lia.
        -- injection Heq as -> <-. rewrite Ascii.eqb_refl.
           pose proof (IHu v l' Hu Hv). cbn. lia.
Qed.

Lemma sublist_reverse {A} (l k : list A) :
  l `sublist_of` k -> reverse l `sublist_of` reverse k.
Proof.
  induction 1 as [|x l k _ IH|x l k _ IH].
  - done.
  - rewrite !reverse_cons. by apply sublist_app.
  - rewrite reverse_cons. by apply sublist_inserts_r.
Qed.

(** *** The table, cell by cell *)

Context (x y : string).

Let m := String.length x.
Let n := String.length y.

Lemma cell_0_l j : cell x y 0 j = 0.
Proof. reflexivity. Qed.

Lemma cell_0_r i : cell x y i 0 = 0.
Proof. unfold cell. rewrite take_0. apply lcsLength_nil_r. Qed.

Lemma cell_S i j :
  i < m -> j < n ->
  cell x y (S i) (S j)
  = if charEq (String.get i x) (String.get j y)
    then cell x y i j + 1
    else Nat.max (cell x y i (S j)) (cell x y (S i) j).
Proof.
  intros Hi Hj. unfold cell. rewrite !get_lookup.
  destruct (lookup_lt_is_Some_2 (chars x) i) as [a Ha]; [by rewrite length_chars|].
  destruct (lookup_lt_is_Some_2 (chars y) j) as [b Hb]; [by rewrite length_chars|].
  rewrite (take_S_r _ _ _ Ha), (take_S_r _ _ _ Hb), !reverse_snoc, lcsLength_cons.
  rewrite Ha, Hb. cbn [charEq]. destruct (Ascii.eqb a b); [lia|done].
Qed.

(** The row [i] of the table. *)
Let row (i : nat) : list nat := cell x y i <$> seq 0 (n + 1).

Lemma row_lookup i j : j < n + 1 -> row i !! j = Some (cell x y i j).
Proof.
  intros Hj. unfold row. rewrite list_lookup_fmap, lookup_seq_lt by done. done.
Qed.

Lemma length_row i : length (row i) = n + 1.
Proof. unfold row. by rewrite length_fmap, length_seq. Qed.

Lemma rowOf_setRow L b r : rowOf (setRow L b r) b = r.
Proof. by destruct b. Qed.

Lemma rowOf_setRow_other L b r : rowOf (setRow L b r) (negb b) = rowOf L (negb b).
Proof. by destruct b. Qed.

(** The inner loop, after [t] rounds: the first [t] cells of the row
    being written are those of the table, and the other row is as it
    was. *)
Lemma inner_loop i b L t :
  i <= m -> t <= n + 1 ->
  length (rowOf L b) = n + 1 ->
  (i <> 0 -> rowOf L (negb b) = row (i - 1)) ->
  rowOf (fold_left (lcsCell x y i b) (seq 0 t) L) (negb b) = rowOf L (negb b)
  /\ length (rowOf (fold_left (lcsCell x y i b) (seq 0 t) L) b) = n + 1
  /\ forall j, j < t ->
       rowOf (fold_left (lcsCell x y i b) (seq 0 t) L) b !! j = Some (cell x y i j).
Proof.
  intros Hi Ht Hlen Hprev. induction t as [|t IH].
  - cbn [seq fold_left]. split; [done|]. split; [done|]. intros j Hj. lia.
  - destruct IH as (IHother & IHlen & IHcells); [lia|].
    rewrite seq_S, fold_left_app. cbn [fold_left Nat.add].
    set (L1 := fold_left (lcsCell x y i b) (seq 0 t) L) in *.
    unfold lcsCell at 1 2 3.
    rewrite rowOf_setRow, rowOf_setRow_other, length_insert.
    split; [done|]. split; [done|].
    intros j Hj. destruct (decide (j = t)) as [->|Hne].
    + rewrite list_lookup_insert_eq by lia. f_equal.
      destruct i as [|i']; [done|]. destruct t as [|t'].
      { by rewrite cell_0_r. }
      cbn [Nat.eqb orb]. rewrite !Nat.sub_succ, !Nat.sub_0_r.
      rewrite IHother, Hprev by done. rewrite Nat.sub_succ, Nat.sub_0_r.
      rewrite (list_lookup_total_correct (row i') t' _ (row_lookup i' t' ltac:(lia))).
      rewrite (list_lookup_total_correct (row i') (S t') _ (row_lookup i' (S t') ltac:(lia))).
      rewrite (list_lookup_total_correct (rowOf L1 b) t' _ (IHcells t' ltac:(lia))).
      symmetry. apply cell_S; lia.
    + rewrite list_lookup_insert_ne by done. apply IHcells. lia.
Qed.

(** The inner loop, run to its end, has written the row of the table. *)
Lemma inner_loop_row i b L :
  i <= m ->
  length (rowOf L b) = n + 1 ->
  (i <> 0 -> rowOf L (negb b) = row (i - 1)) ->
  rowOf (fold_left (lcsCell x y i b) (seq 0 (n + 1)) L) b = row i
  /\ rowOf (fold_left (lcsCell x y i b) (seq 0 (n + 1)) L) (negb b) = rowOf L (negb b).
Proof.
  intros Hi Hlen Hprev.
  destruct (inner_loop i b L (n + 1) Hi (le_n _) Hlen Hprev) as (Hother & Hlen' & Hcells).
  split; [|done].
  apply (list_eq_same_length _ _ (n + 1)); [apply length_row|done|].
  intros j a c Hj Ha Hc. rewrite Hcells in Ha by done.
  rewrite row_lookup in Hc by done. congruence.
Qed.

(** The outer loop, after the round for [k]: the row of [k] is in
    [L[k & 1]]. *)
Lemma outer_loop k :
  k <= m ->
  let '(L, b) :=
    fold_left
      (fun '(L, _) i =>
         let b := Nat.odd i in
         (fold_left (lcsCell x y i b) (seq 0 (n + 1)) L, b))
      (seq 0 (S k)) ((repeat 0 (n + 1), repeat 0 (n + 1)), false) in
  b = Nat.odd k /\ rowOf L b = row k /\ length (rowOf L (negb b)) = n + 1.
Proof.
  induction k as [|k IH]; intros Hk.
  - cbn [seq fold_left]. cbv zeta.
    change (Nat.odd 0) with false.
    destruct (inner_loop_row 0 false (repeat 0 (n + 1), repeat 0 (n + 1)))
      as [Hrow Hother]; [lia|apply repeat_length|done|].
    split; [done|]. split; [done|]. rewrite Hother. apply repeat_length.
  - rewrite seq_S, fold_left_app. cbn [fold_left Nat.add].
    destruct (fold_left _ (seq 0 (S k)) _) as [L b].
    destruct IH as (-> & Hrow & Hlen); [lia|]. cbv zeta.
    assert (Nat.odd (S k) = negb (Nat.odd k)) as Hodd
      by (rewrite Nat.odd_succ; symmetry; apply Nat.negb_odd).
    destruct (inner_loop_row (S k) (Nat.odd (S k)) L) as [Hrow' Hother];
      [lia|by rewrite Hodd|intros _; by rewrite Hodd, negb_involutive, Nat.sub_succ, Nat.sub_0_r|].
    split; [done|]. split; [done|].
    rewrite Hother, Hodd, negb_involutive, Hrow. apply length_row.
Qed.

(** [lcs] returns the last cell of the table. *)
Lemma lcs_lcsLength : lcs x y = lcsLength (reverse (chars x)) (reverse (chars y)).
Proof.
  unfold lcs. fold m n. rewrite (Nat.add_1_r m).
  pose proof (outer_loop m (le_n _)) as Hloop.
  destruct (fold_left _ (seq 0 (S m)) _) as [L b].
  destruct Hloop as (_ & Hrow & _). rewrite Hrow.
  rewrite (list_lookup_total_correct (row m) n _ (row_lookup m n ltac:(lia))).
  unfold cell. by rewrite !take_ge by (rewrite length_chars; done).
Qed.

(** X5. [lcs(x, y)] is the length of a longest common subsequence of the
    two strings: some sequence of characters that can be read, in order,
    in both has that length, and none that can is longer.  This holds
    whichever of the strings is the longer. *)
Theorem lcs_is_the_length_of_a_longest_common_subsequence :
  (exists l, l `sublist_of` chars x /\ l `sublist_of` chars y /\ length l = lcs x y)
  /\ (forall l, l `sublist_of` chars x -> l `sublist_of` chars y -> length l <= lcs x y).
Proof.
  rewrite lcs_lcsLength. split.
  - destruct (lcsLength_common (reverse (chars x)) (reverse (chars y)))
      as (l & Hx & Hy & Hlen).
    exists (reverse l). apply sublist_reverse in Hx, Hy.
    rewrite reverse_involutive in Hx, Hy. by rewrite length_reverse.
  - intros l Hx Hy. rewrite <- (length_reverse l).
    apply lcsLength_longest; by apply sublist_reverse.
Qed.


End Lcs.

(** ** The score of an item *)

Section LcsScore.

Import Completion.









End LcsScore.


(** ** The items that are shown *)

Section Stable.

Import Completion.
Context {A : Type} (score : A -> Q).

Let compare (a b : A) : Q := (score b - score a)%Q.



(** Items that all score alike stay as they are. *)
Lemma sortBy_all_alike l :
  (forall a b, a ∈ l -> b ∈ l -> (score a == score b)%Q) -> sortBy compare l = l.
Proof.
  induction l as [|a l IH]; intros Halike; [done|].
  change (sortBy compare (a :: l)) with (insertBy compare a (sortBy compare l)).
  rewrite IH by (intros b c Hb Hc; apply Halike; by right).
  destruct l as [|b l]; [done|]. cbn [insertBy].
  assert (Qle_bool (compare a b) 0 = true) as ->; [|done].
  apply Qle_bool_iff. unfold compare.
  pose proof (Halike a b ltac:(by left) ltac:(right; by left)). lra.
Qed.

End Stable.



Section TopItems.

Import Completion.


Lemma ownScore_nothing_typed item : ownScore "" item = 0%Q.
Proof. unfold ownScore, lcsScore. cbn [String.length Nat.eqb]. by rewrite orb_true_r. Qed.

Lemma tableScore_nothing_typed items item : tableScore items "" item = 0%Q.
Proof.
  unfold tableScore, scoreAt. rewrite scoresOf_lookup.
  destruct (last _) as [i|]; [|done]. cbn. apply ownScore_nothing_typed.
Qed.

(** X8. With nothing typed (the word range is empty) every score is 0,
    and the popup shows the first 30 items in the order the server sent
    them. *)
Theorem nothing_typed_keeps_the_order_of_the_server items maxItems item wordRange cm :
  filteredItems items "" maxItems = take maxItems items
  /\ (CodeMirror.getRange cm (CodeMirror.from wordRange) (CodeMirror.to wordRange) = "" ->
      CodeMirror.completionActive (showInvokedCompletions (item :: items) wordRange cm)
      = Some (mkHints (CodeMirror.from wordRange) (CodeMirror.to wordRange)
                (List.map toHint (take 30 (item :: items))))).
Proof.
  assert (forall l k, filteredItems l "" k = take k l) as Hkeep.
  { intros l k. unfold filteredItems. fold (tableScore l ""). f_equal.
    apply (sortBy_all_alike (tableScore l "")).
    intros a b _ _. by rewrite !tableScore_nothing_typed. }
  split; [apply Hkeep|].
  intros Htyped. unfold showInvokedCompletions. cbn [length Nat.eqb].
  by rewrite Htyped, Hkeep.
Qed.

End TopItems.

Lemma nothing_typed_keeps_the_order_of_the_server_witness :
  option_map (fun hints => List.map Completion.hint_text (Completion.hints_list hints))
    (CodeMirror.completionActive
       (Completion.showInvokedCompletions
          [Completion.mkItem "zip" None; Completion.mkItem "abs" None]
          (CodeMirror.mkRange (CodeMirror.mkPosition 0 2) (CodeMirror.mkPosition 0 2))
          (Scenario.editor "a.")))
  = Some ["zip"; "abs"].
Proof.
  destruct (nothing_typed_keeps_the_order_of_the_server
              [Completion.mkItem "abs" None] 30 (Completion.mkItem "zip" None)
              (CodeMirror.mkRange (CodeMirror.mkPosition 0 2) (CodeMirror.mkPosition 0 2))
              (Scenario.editor "a.")) as [_ Hshown].
  by rewrite (Hshown eq_refl).
Defined.


(** ** Document URIs *)

Section DocumentUri.

Import Workspace.

Lemma append_inj_l r a b : r +:+ a = r +:+ b -> a = b.
Proof.
  induction r as [|c r IH]; [done|].
  rewrite !append_cons. intros [= Heq]. by apply IH.
Qed.

Lemma prefix_append r a : String.prefix r (r +:+ a) = true.
Proof.
  induction r as [|c r IH]; [by destruct a|].
  rewrite append_cons. cbn [String.prefix]. by destruct (ascii_dec c c).
Qed.

Lemma stripLeadingSlashes_other c p :
  c <> "/"%char -> Js.stripLeadingSlashes (String c p) = String c p.
Proof.
  intros Hc. destruct c as [[] [] [] [] [] [] [] []]; try reflexivity. by destruct Hc.
Qed.

Lemma stripLeadingSlashes_stripped p :
  Js.startsWith (Js.stripLeadingSlashes p) "/" = false.
Proof.
  induction p as [|c p IH]; [done|].
  destruct (ascii_dec c "/") as [->|Hc]; [exact IH|].
  rewrite stripLeadingSlashes_other by done.
  unfold Js.startsWith. cbn [String.prefix].
  destruct (ascii_dec "/" c) as [<-|_]; [done|done].
Qed.

(** X9. The leading separators of a path do not count: two paths name the
    same document exactly when they agree after their leading separators
    (so [/a.ts] and [a.ts] are one document); the URI of a document
    starts with the root URI, and what follows the root does not start
    with a separator. *)
Theorem leading_separators_of_a_path_do_not_count s p q :
  (getDocumentUri s p = getDocumentUri s q
   <-> Js.stripLeadingSlashes p = Js.stripLeadingSlashes q)
  /\ getDocumentUri s (String "/" p) = getDocumentUri s p
  /\ Js.startsWith (getDocumentUri s p) (rootUri s) = true
  /\ (exists rest,
        getDocumentUri s p = rootUri s +:+ rest /\ Js.startsWith rest "/" = false).
Proof.
  unfold getDocumentUri. split; [|split; [|split]].
  - split; [apply append_inj_l|by intros ->].
  - reflexivity.
  - apply prefix_append.
  - exists (Js.stripLeadingSlashes p). split; [done|apply stripLeadingSlashes_stripped].
Qed.

End DocumentUri.

(** ** The versions of a document *)

Section Versions.

Import Eff CodeMirror Lsp Workspace EventStream.

Context (h : Host) (uri : string) (c : LspConnection).

Lemma changeVersions_app l1 l2 :
  changeVersions uri (l1 ++ l2) = changeVersions uri l1 ++ changeVersions uri l2.
Proof. unfold changeVersions. apply flat_map_app. Qed.

Lemma changeVersions_none l :
  List.filter isDidChange l = [] -> changeVersions uri l = [].
Proof.
  induction l as [|e l IH]; [done|]. cbn [List.filter].
  destruct (isDidChange e) eqn:E; [done|]. intros Hl.
  change (e :: l) with ([e] ++ l).
  rewrite changeVersions_app, (IH Hl), app_nil_r.
  destruct e as [? []| | | | | | | | | |]; try done.
Qed.

(** One delivery of the change stream: its [didChange] carries the
    incremented counter, which is stored. *)
Lemma onChanges_version s batch :
  batch <> [] ->
  let s' := exec (onChanges h uri c batch) s in
  exists effects,
    trace s' = trace s ++ effects
    /\ changeVersions uri effects = [Js.preIncrement (documentVersions s !! uri)]
    /\ documentVersions s' !! uri = Some (Js.preIncrement (documentVersions s !! uri)).
Proof.
  intros Hbatch. destruct batch as [|[cm cs0] rest]; [done|]. cbn zeta.
  destruct (onChanges_one_didChange h uri c s cm cs0 rest) as (after & Ht & Hafter & Hv).
  eexists. split; [exact Ht|]. split.
  - change (?e :: after) with ([e] ++ after).
    rewrite changeVersions_app, (changeVersions_none after Hafter), app_nil_r.
    cbn. by rewrite String.eqb_refl.
  - rewrite Hv. apply lookup_insert_eq.
Qed.

Lemma deliver_onChanges_counts batches : forall s v,
  documentVersions s !! uri = Some (Js.Num v) ->
  Forall (fun batch => batch <> []) batches ->
  let s' := deliver (onChanges h uri c) batches s in
  exists effects,
    trace s' = trace s ++ effects
    /\ changeVersions uri effects
       = (fun k => Js.Num (v + Z.of_nat k)) <$> seq 1 (length batches)
    /\ documentVersions s' !! uri = Some (Js.Num (v + Z.of_nat (length batches))).
Proof.
  induction batches as [|batch batches IH]; intros s v Hv Hall; cbn zeta.
  - exists []. cbn. rewrite app_nil_r, Z.add_0_r. by split.
  - apply Forall_cons in Hall as [Hbatch Hall].
    rewrite deliver_cons.
    destruct (onChanges_version s batch Hbatch) as (first & Ht & Hfirst & Hv').
    rewrite Hv in Hfirst, Hv'. cbn [Js.preIncrement] in Hfirst, Hv'.
    destruct (IH _ _ Hv' Hall) as (more & Ht' & Hmore & Hv'').
    exists (first ++ more). split; [|split].
    + by rewrite Ht', Ht, <- app_assoc.
    + rewrite changeVersions_app, Hfirst, Hmore. cbn [length app].
      change (seq 1 (S (length batches))) with (1 :: seq 2 (length batches)).
      rewrite fmap_cons. f_equal.
      rewrite <- (fmap_S_seq 1), <- list_fmap_compose.
      apply list_fmap_ext. intros _ k _. cbn. f_equal. lia.
    + rewrite Hv''. do 2 f_equal. cbn [length]. lia.
Qed.

Lemma deliver_onChanges_NaN batches : forall s,
  Js.preIncrement (documentVersions s !! uri) = Js.NaN ->
  Forall (fun batch => batch <> []) batches ->
  let s' := deliver (onChanges h uri c) batches s in
  exists effects,
    trace s' = trace s ++ effects
    /\ changeVersions uri effects = repeat Js.NaN (length batches)
    /\ Js.preIncrement (documentVersions s' !! uri) = Js.NaN
    /\ (batches <> [] -> documentVersions s' !! uri = Some Js.NaN).
Proof.
  induction batches as [|batch batches IH]; intros s Hv Hall; cbn zeta.
  - exists []. cbn. rewrite app_nil_r. by repeat split.
  - apply Forall_cons in Hall as [Hbatch Hall].
    rewrite deliver_cons.
    destruct (onChanges_version s batch Hbatch) as (first & Ht & Hfirst & Hv').
    rewrite Hv in Hfirst, Hv'.
    destruct (IH (exec (onChanges h uri c batch) s)) as (more & Ht' & Hmore & Hnan & Hstored);
      [by rewrite Hv'|done|].
    exists (first ++ more). split; [|split; [|split]].
    + by rewrite Ht', Ht, <- app_assoc.
    + by rewrite changeVersions_app, Hfirst, Hmore.
    + done.
    + intros _. destruct batches as [|b bs]; [exact Hv'|]. by apply Hstored.
Qed.

(** X10. The versions of the [didChange] notifications of a document count
    up by one: when the counter of the document is [v], the deliveries of
    the change stream that follow, however many edits each of them
    batches, carry the versions [v + 1], [v + 2], ... in order, and the
    counter ends at [v] plus their number. *)
Theorem didChange_versions_count_up s v batches :
  documentVersions s !! uri = Some (Js.Num v) ->
  Forall (fun batch => batch <> []) batches ->
  let s' := deliver (onChanges h uri c) batches s in
  changeVersions uri (since s s')
  = (fun k => Js.Num (v + Z.of_nat k)) <$> seq 1 (length batches)
  /\ documentVersions s' !! uri = Some (Js.Num (v + Z.of_nat (length batches))).
Proof.
  intros Hv Hall s'.
  destruct (deliver_onChanges_counts batches s v Hv Hall) as (effects & Ht & Hvs & Hv').
  fold s' in Ht, Hv'. by rewrite (since_app _ _ _ Ht).
Qed.

(** X11. A delivery of the change stream for a document that has no
    counter (it was closed, or never opened) sends [didChange] with the
    version [NaN] and stores [NaN] as the counter of the document; so do
    all the deliveries after it. *)
Theorem didChange_without_a_counter_carries_NaN s batches :
  documentVersions s !! uri = None ->
  Forall (fun batch => batch <> []) batches ->
  let s' := deliver (onChanges h uri c) batches s in
  changeVersions uri (since s s') = repeat Js.NaN (length batches)
  /\ (batches <> [] -> documentVersions s' !! uri = Some Js.NaN).
Proof.
  intros Hv Hall s'.
  destruct (deliver_onChanges_NaN batches s) as (effects & Ht & Hvs & _ & Hstored);
    [by rewrite Hv|done|].
  fold s' in Ht, Hstored. by rewrite (since_app _ _ _ Ht).
Qed.

End Versions.

(** ** The life of a document and of its connection *)

Lemma filter_keeps_all {A} (P : A -> bool) l :
(forall x, x ∈ l -> P x = true) -> List.filter P l = l.
Proof.
induction l as [|x l IH]; intros Hall; [done|].
cbn [List.filter]. rewrite (Hall x) by (by left).
f_equal. apply IH. intros y Hy. apply Hall. by right.
Qed.

Lemma identityOf_registrationsFrom n r :
r ∈ Workspace.registrationsFrom n -> n <= Workspace.identityOf r.
Proof.
unfold Workspace.registrationsFrom. intros Hr.
repeat (apply elem_of_cons in Hr as [->|Hr]; [cbn; lia|]).
by apply elem_of_nil in Hr.
Qed.

Section Lifecycle.

Import Eff CodeMirror Lsp Workspace.

Context (h : Host) (root path : string) (assoc : LanguageAssociation)
  (serverId : string).

Let uri := root +:+ Js.stripLeadingSlashes path.

Hypothesis Hassoc : getLanguageAssociation h uri = Some assoc.
Hypothesis Hserver : head (languageServerIds assoc) = Some serverId.
Hypothesis Htruthy : Js.truthy serverId = true.

(** Closing a document whose editor has [ds] as its disposers: they are
    called, the surfaces cleared, [didClose] sent. *)
Lemma close_tracked s c editor ds :
  rootUri s = root ->
  connections s !! serverId = Some c ->
  editors s !! uri = Some editor ->
  subscriptionDisposers s !! editor = Some ds ->
  exists s1,
    closeTextDocument h path s = (Ok tt, s1)
    /\ registrations (heap s1 editor)
       = List.filter (fun r => bool_decide ((editor, r) ∉ ds))
           (registrations (heap s editor))
    /\ subscriptionDisposers s1 = delete editor (subscriptionDisposers s)
    /\ trace s1
       = trace s ++ List.map Disposed ds
         ++ [RemoveDiagnostics editor; RemoveHoverInfo editor; RemoveHighlights editor;
             HideCompletions editor; RemoveSignatureHelp editor;
             Call (conn c) (textDocumentClosed uri)]
    /\ editors s1 = delete uri (editors s)
    /\ documentVersions s1 = delete uri (documentVersions s)
    /\ connections s1 = connections s.
Proof.
  intros Hroot Hconn Hed Hsub. eexists. split.
  { rewrite (close_connected h root path assoc serverId Hassoc Hserver Htruthy
               s c Hroot Hconn).
    fold uri. rewrite Hed.
    unfold removeEventHandlers. run. cbn [mbind option_bind onEditor].
    autorewrite with state. rewrite Hsub. run. rewrite bind_forEach_dispose. run.
    reflexivity. }
  set (s0 := setDocumentVersions (delete uri) (setEditors (delete uri) s)).
  destruct (disposeAll_heap ds s0 editor) as [Hregs _].
  change (heap s0 editor) with (heap s editor) in Hregs.
  split; [|split; [|split; [|split; [|split]]]].
  - autorewrite with state. unfold setSignatureHelpShown. cbn [registrations].
    rewrite hideCompletions_registrations.
    cbn [registrations setHighlightsShown setHoverInfoShown setDiagnosticsShown].
    exact Hregs.
  - autorewrite with state. cbv beta.
    rewrite (disposeAll_keeps subscriptionDisposers) by (intros; reflexivity).
    subst s0. by autorewrite with state.
  - autorewrite with state. cbv beta.
    rewrite disposeAll_trace. subst s0. autorewrite with state.
    by rewrite <- !app_assoc.
  - autorewrite with state.
    rewrite (disposeAll_keeps editors) by (intros; reflexivity).
    subst s0. by autorewrite with state.
  - autorewrite with state.
    rewrite (disposeAll_keeps documentVersions) by (intros; reflexivity).
    subst s0. by autorewrite with state.
  - autorewrite with state.
    rewrite (disposeAll_keeps connections) by (intros; reflexivity).
    subst s0. by autorewrite with state.
Qed.

(** X12. An open tracks the disposers of its own seven handlers only, in
    place of what was tracked for the editor: after the close that
    follows it, the handlers that were on the editor before the open (those
    of an earlier open that was not closed, say) are still registered, and
    the workspace holds no disposer for them. *)
Theorem open_tracks_only_its_own_handlers s c c0 editor :
  rootUri s = root ->
  connections s !! serverId = Some c0 ->
  Forall (fun r => identityOf r < fresh s) (registrations (heap s editor)) ->
  let s1 := exec (openTextDocument h path editor (Some c)) s in
  let s2 := exec (closeTextDocument h path) s1 in
  registrations (heap s1 editor)
  = registrations (heap s editor) ++ registrationsFrom (fresh s)
  /\ subscriptionDisposers s1 !! editor
     = Some (List.map (pair editor) (registrationsFrom (fresh s)))
  /\ registrations (heap s2 editor) = registrations (heap s editor)
  /\ subscriptionDisposers s2 !! editor = None.
Proof.
  intros Hroot Hconn Hold s1 s2.
  assert (rootUri s1 = root) as Hroot1.
  { subst s1. unfold exec. by rewrite keepsRoot_open. }
  pose proof (open_connected h root path assoc serverId Hassoc Hserver Htruthy
                s editor c Hroot) as Hopen.
  fold uri s1 in Hopen.
  match type of Hopen with
  | _ = exec (addEventHandlers ?u ?e ?c') ?sA =>
      pose proof (addEventHandlers_fields u e c' sA) as Hfields
  end.
  rewrite <- Hopen in Hfields.
  destruct Hfields as (_ & _ & Heds & Hconns & Hsubs & Hregs & _).
  autorewrite with state in Heds, Hconns, Hsubs, Hregs.
  assert (subscriptionDisposers s1 !! editor
          = Some (List.map (pair editor) (registrationsFrom (fresh s)))) as Hsub1.
  { rewrite Hsubs. apply lookup_insert_eq. }
  destruct (close_tracked s1 c0 editor
              (List.map (pair editor) (registrationsFrom (fresh s))) Hroot1)
    as (s2' & Hrun & Hregs2 & Hsubs2 & _);
    [by rewrite Hconns|rewrite Heds; apply lookup_insert_eq|exact Hsub1|].
  assert (s2 = s2') as -> by (subst s2; unfold exec; by rewrite Hrun).
  split; [exact Hregs|]. split; [exact Hsub1|]. split.
  - rewrite Hregs2, Hregs, List.filter_app.
    rewrite filter_keeps_all, filter_none; [by rewrite app_nil_r| |].
    + intros r Hr. apply bool_decide_eq_false_2. intros Hn. apply Hn.
      apply list_elem_of_In, in_map, list_elem_of_In, Hr.
    + intros r Hr. apply bool_decide_eq_true_2.
      intros Hin%list_elem_of_In%in_map_iff. destruct Hin as (r' & [= ->] & Hr').
      apply list_elem_of_In, identityOf_registrationsFrom in Hr'.
      rewrite Forall_forall in Hold. specialize (Hold r Hr). lia.
  - rewrite Hsubs2. apply lookup_delete_eq.
Qed.

(** X13. Once its connection has closed (the handler of [onClose] has
    taken the entry out of the table), an open document is stuck:
    closing and saving it do nothing at all, so it stays in the tables
    with its handlers, and the change stream, which holds the connection
    object, goes on sending a [didChange] per batch of edits over the
    closed connection; the next [connect] starts from scratch. *)
Theorem documents_outlive_their_connection s c :
  rootUri s = root ->
  let s' := closed serverId s in
  closeTextDocument h path s' = (Ok tt, s')
  /\ saveTextDocument h path s' = (Ok Saved, s')
  /\ connect serverId s' = (AwaitConnectionString serverId, s')
  /\ (editors s' = editors s /\ documentVersions s' = documentVersions s
      /\ subscriptionDisposers s' = subscriptionDisposers s /\ heap s' = heap s)
  /\ (forall cm cs0 rest,
        exists after,
          since s' (exec (onChanges h uri c ((cm, cs0) :: rest)) s')
          = Call (conn c)
              (textDocumentChanged uri (Js.preIncrement (documentVersions s !! uri))
                 (contentChangesOf h c s ((cm, cs0) :: rest)))
            :: after).
Proof.
  intros Hroot s'.
  assert (connections s' !! serverId = None) as Hnone.
  { subst s'. unfold closed. autorewrite with state. apply lookup_delete_eq. }
  split; [|split; [|split; [|split]]].
  - unfold closeTextDocument. run. unfold getDocumentUri.
    change (rootUri s') with (rootUri s). rewrite Hroot. fold uri.
    rewrite Hassoc, Hserver, Htruthy, Hnone. reflexivity.
  - unfold saveTextDocument. run. unfold getDocumentUri.
    change (rootUri s') with (rootUri s). rewrite Hroot. fold uri.
    rewrite Hassoc, Hserver, Htruthy, Hnone. reflexivity.
  - unfold connect. by rewrite Hnone.
  - done.
  - intros cm cs0 rest.
    destruct (onChanges_one_didChange h uri c s' cm cs0 rest) as (after & Ht & _).
    exists after. by apply since_app.
Qed.

(** X14. A document opened while the handshake of its server is pending
    gets the connection that is in the table by then, and its [didOpen]
    goes out after [initialize] and before [initialized]. *)
Theorem didOpen_during_the_handshake_precedes_initialized
  s connectionString transport editor :
  rootUri s = root ->
  let c := mkLspConnection transport (serverCapabilities h connectionString) in
  let s1 := snd (resume h (AwaitMessageConnection serverId connectionString transport) s) in
  let s2 := exec (openTextDocument h path editor (Some c)) s1 in
  let s3 := snd (resume h (AwaitInitialize serverId c) s2) in
  fst (resume h (AwaitMessageConnection serverId connectionString transport) s)
  = AwaitInitialize serverId c
  /\ connect serverId s1 = (Connected (Some c), s1)
  /\ since s s3
     = [ Call transport (onClose serverId);
         Call transport listen;
         Call transport (initialize root (canHandleMarkdown s));
         Call transport
           (textDocumentOpened uri (languageId assoc) (getValue (heap s editor))
              (Js.Num 1));
         Call transport initialized;
         Call transport onDiagnostics ].
Proof.
  intros Hroot c s1 s2 s3.
  assert (trace s1
          = trace s ++ [ Call transport (onClose serverId); Call transport listen;
                         Call transport (initialize root (canHandleMarkdown s)) ]
          /\ connections s1 !! serverId = Some c
          /\ rootUri s1 = root /\ heap s1 = heap s) as (Ht1 & Hc1 & Hroot1 & Hheap1).
  { subst s1. cbn [resume snd]. unfold exec. run. cbn [snd].
    autorewrite with state. cbv beta. rewrite Hroot, <- !app_assoc.
    split; [done|]. split; [apply lookup_insert_eq|done]. }
  split; [reflexivity|]. split; [by apply connect_returns_existing|].
  pose proof (open_connected h root path assoc serverId Hassoc Hserver Htruthy
                s1 editor c Hroot1) as Hopen.
  fold uri s2 in Hopen.
  match type of Hopen with
  | _ = exec (addEventHandlers ?u ?e ?c') ?sA =>
      pose proof (addEventHandlers_fields u e c' sA) as Hfields
  end.
  rewrite <- Hopen in Hfields. destruct Hfields as (Ht2 & _).
  autorewrite with state in Ht2. cbv beta in Ht2.
  apply since_app. subst s3. cbn [resume snd]. unfold exec. run. cbn [snd].
  autorewrite with state. cbv beta.
  rewrite Ht2, Ht1, Hheap1, <- !app_assoc. reflexivity.
Qed.

End Lifecycle.

Section ConnectAlone.

Import Eff CodeMirror Lsp Workspace.

Context (h : Host) (serverId : string).

Let connectionString := getConnectionString h serverId.

(** X15. A call of [connect] that no other call interleaves with, for a
    server that has no connection.  Without a connection string it
    returns nothing and changes nothing.  With one it opens one transport
    (a WebSocket for a [ws://] or [wss://] URL, a worker otherwise), then
    calls [onClose], [listen], [initialize] with the root URI,
    [initialized] and [onDiagnostics], in this order; the connection is in
    the table, so the next call returns it; and when the connection has
    closed the call after that starts over. *)
Theorem connect_alone s :
  connections s !! serverId = None ->
  let c := mkLspConnection (fresh s) (serverCapabilities h connectionString) in
  let '(k0, s0) := connect serverId s in
  let '(k1, s1) := resume h k0 s0 in
  let '(k2, s2) := resume h k1 s1 in
  let '(k3, s3) := resume h k2 s2 in
  (Js.truthy connectionString = false -> k3 = Connected None /\ s3 = s)
  /\ (Js.truthy connectionString = true ->
      k3 = Connected (Some c)
      /\ since s s3
         = [ if isWebSocketUrl connectionString
             then NewWebSocket connectionString (fresh s)
             else NewWorker connectionString (fresh s);
             Call (fresh s) (onClose serverId);
             Call (fresh s) listen;
             Call (fresh s) (initialize (rootUri s) (canHandleMarkdown s));
             Call (fresh s) initialized;
             Call (fresh s) onDiagnostics ]
      /\ connections s3 = <[serverId := c]> (connections s)
      /\ connect serverId s3 = (Connected (Some c), s3)
      /\ connect serverId (closed serverId s3)
         = (AwaitConnectionString serverId, closed serverId s3)
      /\ fresh s3 = S (fresh s)).
Proof.
  intros Hnone c. unfold connect. rewrite Hnone. cbn [resume].
  fold connectionString.
  destruct (Js.truthy connectionString) eqn:Hcs; cbn [negb resume].
  { split; [done|]. intros _. fold c.
    unfold exec. run. cbn [snd]. unfold closed. autorewrite with state. cbv beta.
    rewrite lookup_insert_eq, lookup_delete_eq.
    split; [done|]. split; [|done].
    apply since_app. autorewrite with state. cbv beta. by rewrite <- !app_assoc. }
  split; [done|]. intros [=].
Qed.

End ConnectAlone.

(** ** One document does not disturb another *)

Section Isolation.

Import Eff CodeMirror Lsp Workspace.

Context (h : Host) (other : string).

Lemma keepsEditors_onChanges uri c buffered :
  keeps editors (onChanges h uri c buffered).
Proof.
  unfold onChanges, EventStream.map, EventStream.filter, changesTransform,
    changesFilter, changesSubscriber.
  keeps_field.
Qed.

Lemma documentOf_root s s' st :
  rootUri s' = rootUri s -> documentOf s' st = documentOf s st.
Proof. intros Hroot. destruct st; cbn; unfold getDocumentUri; by rewrite ?Hroot. Qed.

(** A step that is about another document, or about none, leaves the
    counter and the editor of this one as they are. *)
Lemma step_other st s :
  documentOf s st <> Some other ->
  documentVersions (step h st s) !! other = documentVersions s !! other
  /\ editors (step h st s) !! other = editors s !! other.
Proof.
  intros Hne. destruct st as [path editor connected|path|path|k edits|k|uri c buffered
                             |serverId|k|serverId|editor cm]; cbn [step documentOf] in *.
  - assert (getDocumentUri s path <> other) as Huri by congruence.
    unfold exec, openTextDocument. run.
    destruct (getLanguageAssociation h (getDocumentUri s path)) as [assoc|]; [|done].
    destruct (head (languageServerIds assoc)) as [serverId|]; [|done].
    destruct (negb (Js.truthy serverId)); [done|].
    destruct connected as [c|]; [|done].
    run. rewrite addEventHandlers_run. cbn [snd]. autorewrite with state.
    rewrite (registerAll_keeps documentVersions), (registerAll_keeps editors)
      by (intros; reflexivity).
    autorewrite with state.
    by rewrite !lookup_insert_ne by done.
  - assert (getDocumentUri s path <> other) as Huri by congruence.
    unfold exec, closeTextDocument. run.
    destruct (getLanguageAssociation h (getDocumentUri s path)) as [assoc|]; [|done].
    destruct (head (languageServerIds assoc)) as [serverId|]; [|done].
    destruct (negb (Js.truthy serverId)); [done|].
    destruct (connections s !! serverId) as [c|]; [|done].
    run.
    match goal with
    | |- context [bind ?m ?k ?s0] =>
        assert (keeps documentVersions (bind m k)) as Hv;
        [|assert (keeps editors (bind m k)) as He;
          [|rewrite (Hv s0), (He s0)]]
    end.
    + apply keeps_bind; [apply keeps_removeEventHandlers; intros; reflexivity|].
      intros _ s0. reflexivity.
    + apply keeps_bind; [apply keeps_removeEventHandlers; intros; reflexivity|].
      intros _ s0. reflexivity.
    + autorewrite with state. by rewrite !lookup_delete_ne by done.
  - unfold exec. split; f_equal.
    + assert (keeps documentVersions (saveTextDocument h path)) as Hk
        by (unfold saveTextDocument; keeps_field).
      apply Hk.
    + assert (keeps editors (saveTextDocument h path)) as Hk
        by (unfold saveTextDocument; keeps_field).
      apply Hk.
  - unfold exec. split; f_equal.
    + assert (keeps documentVersions (editsReceived h k edits)) as Hk
        by (unfold editsReceived, sendSaved; keeps_field).
      apply Hk.
    + assert (keeps editors (editsReceived h k edits)) as Hk
        by (unfold editsReceived, sendSaved; keeps_field).
      apply Hk.
  - unfold exec. split; f_equal.
    + assert (keeps documentVersions (delayElapsed k)) as Hk
        by (unfold delayElapsed, sendSaved; keeps_field).
      apply Hk.
    + assert (keeps editors (delayElapsed k)) as Hk
        by (unfold delayElapsed, sendSaved; keeps_field).
      apply Hk.
  - assert (uri <> other) as Huri by congruence.
    split; [|unfold exec; by rewrite keepsEditors_onChanges].
    destruct buffered as [|[cm cs0] rest]; [done|].
    destruct (onChanges_one_didChange h uri c s cm cs0 rest) as (after & _ & _ & Hv).
    rewrite Hv. by apply lookup_insert_ne.
  - unfold connect. by destruct (connections s !! serverId).
  - unfold resume. destruct k; try done.
    by destruct (negb (Js.truthy (getConnectionString h serverId))).
  - done.
  - done.
Qed.

(** X16. What happens to other documents (opening, closing, saving them,
    their batches of edits), to the connections and to the editors never
    changes the version counter of a document nor the editor the table
    holds for it. *)
Theorem other_documents_are_left_alone sts s :
  Forall (fun st => documentOf s st <> Some other) sts ->
  documentVersions (steps h sts s) !! other = documentVersions s !! other
  /\ editors (steps h sts s) !! other = editors s !! other.
Proof.
  intros Hall. revert s Hall.
  induction sts as [|st sts IH]; intros s Hall; [done|].
  apply Forall_cons in Hall as [Hst Hall].
  change (steps h (st :: sts) s) with (steps h sts (step h st s)).
  destruct (step_other st s Hst) as [Hv He].
  destruct (IH (step h st s)) as [Hv' He'].
  - eapply Forall_impl; [exact Hall|]. intros st' Hst'.
    by rewrite (documentOf_root s (step h st s)) by apply step_keeps_root.
  - by rewrite Hv', He'.
Qed.

End Isolation.

(** ** Showing and hiding the completion popup *)

Section ShowHide.

Import CodeMirror Completion.

Lemma hide_shown hints cm :
  completionActive cm = None -> hideCompletions (showHint hints cm) = cm.
Proof. destruct cm. cbn. by intros ->. Qed.

(** X17. Hiding undoes showing: on an editor without a popup, showing
    completions (invoked or triggered, whatever the items) and then
    hiding them leaves the editor as it was; hiding twice is hiding once;
    and the triggered popup lists every item, in the order given, at the
    cursor. *)
Theorem hiding_undoes_showing items wordRange position cm :
  completionActive cm = None ->
  hideCompletions (showInvokedCompletions items wordRange cm) = cm
  /\ hideCompletions (showTriggeredCompletions items position cm) = cm
  /\ (forall cm', hideCompletions (hideCompletions cm') = hideCompletions cm')
  /\ (items <> [] ->
      completionActive (showTriggeredCompletions items position cm)
      = Some (mkHints position position (List.map toHint items))).
Proof.
  intros Hnone.
  assert (hideCompletions cm = cm) as Hhide
    by (unfold hideCompletions; by rewrite Hnone).
  split; [|split; [|split]].
  - unfold showInvokedCompletions. destruct (length items =? 0); [done|].
    by apply hide_shown.
  - unfold showTriggeredCompletions. destruct (length items =? 0); [done|].
    by apply hide_shown.
  - intros cm'. by destruct cm' as [? ? ? ? [active|] ? ? ? ? ?].
  - intros Hitems. unfold showTriggeredCompletions.
    destruct items as [|item items]; [done|]. reflexivity.
Qed.

End ShowHide.

(** ** The documents of the JSON server *)

Section JsonServerDocuments.

Import JsonServer.

Context {TextDocument ContentChange Position Answer : Type}.
Context (create : string -> string -> Z -> string -> TextDocument).
Context (update : TextDocument -> list ContentChange -> Z -> TextDocument).
Context (doComplete doHover : TextDocument -> Position -> Answer).




End JsonServerDocuments.

(** ** The scenario, run further *)

Section ScenarioRunsFurther.

Import Eff CodeMirror Lsp Workspace Scenario.

Let uri := "file:///project/a.ts".
Let association := mkLanguageAssociation "typescript" ["ts"].

Lemma hover_in_one_token_is_handled_once_witness :
  EventStream.emitted (samePosition (editor "a."))
    [mkPosition 0 0; mkPosition 0 1; mkPosition 0 2]
  = [mkPosition 0 0].
Proof.
  assert (Forall (fun q => samePosition (editor "a.") (mkPosition 0 0) q = true)
            [mkPosition 0 1; mkPosition 0 2]) as Hrun by (by repeat constructor).
  destruct (hover_in_one_token_is_handled_once (editor "a.") _ _ Hrun)
    as (_ & _ & _ & Honce).
  exact Honce.
Defined.

Lemma didChange_versions_count_up_witness :
  documentVersions opened !! uri = Some (Js.Num 1)
  /\ changeVersions uri
       (since opened
          (EventStream.deliver (onChanges host uri server)
             [[(0, [typed "a"])]; [(0, [typed "b"]); (0, [typed "c"])]] opened))
     = [Js.Num 2; Js.Num 3].
Proof.
  assert (documentVersions opened !! uri = Some (Js.Num 1)) as Hv by (by vm_compute).
  split; [exact Hv|].
  assert (Forall (fun batch : list (nat * list EditorChange) => batch <> [])
            [[(0, [typed "a"])]; [(0, [typed "b"]); (0, [typed "c"])]]) as Hall
    by (by repeat constructor).
  destruct (didChange_versions_count_up host uri server opened 1 _ Hv Hall) as [Hvs _].
  vm_compute in Hvs. vm_compute. exact Hvs.
Defined.

Lemma didChange_without_a_counter_carries_NaN_witness :
  documentVersions (exec (closeTextDocument host "a.ts") opened) !! uri = None
  /\ changeVersions uri
       (since (exec (closeTextDocument host "a.ts") opened)
          (EventStream.deliver (onChanges host uri server) [[(0, [typed "a"])]]
             (exec (closeTextDocument host "a.ts") opened)))
     = [Js.NaN].
Proof.
  assert (documentVersions (exec (closeTextDocument host "a.ts") opened) !! uri = None)
    as Hv by (by vm_compute).
  split; [exact Hv|].
  assert (Forall (fun batch : list (nat * list EditorChange) => batch <> [])
            [[(0, [typed "a"])]]) as Hall by (by repeat constructor).
  destruct (didChange_without_a_counter_carries_NaN host uri server _ _ Hv Hall)
    as [Hvs _].
  vm_compute in Hvs. vm_compute. exact Hvs.
Defined.

Lemma open_tracks_only_its_own_handlers_witness :
  Forall (fun r => identityOf r < fresh opened) (registrations (heap opened 0))
  /\ registrations
       (heap (exec (closeTextDocument host "a.ts")
                (exec (openTextDocument host "a.ts" 0 (Some server)) opened)) 0)
     = registrationsFrom 0.
Proof.
  assert (Forall (fun r => identityOf r < fresh opened) (registrations (heap opened 0)))
    as Hold.
  { apply (bool_decide_unpack _). by vm_compute. }
  assert (rootUri opened = "file:///project/") as Hroot by (by vm_compute).
  assert (connections opened !! "ts" = Some server) as Hconn by (by vm_compute).
  split; [exact Hold|].
  destruct (open_tracks_only_its_own_handlers host "file:///project/" "a.ts"
              association "ts" eq_refl eq_refl eq_refl opened server server 0
              Hroot Hconn Hold) as (_ & _ & Hleft & _).
  vm_compute in Hleft. vm_compute. exact Hleft.
Defined.

Lemma documents_outlive_their_connection_witness :
  rootUri opened = "file:///project/"
  /\ closeTextDocument host "a.ts" (closed "ts" opened) = (Ok tt, closed "ts" opened).
Proof.
  assert (rootUri opened = "file:///project/") as Hroot by (by vm_compute).
  split; [exact Hroot|].
  destruct (documents_outlive_their_connection host "file:///project/" "a.ts"
              association "ts" eq_refl eq_refl eq_refl opened server Hroot)
    as [Hclose _].
  exact Hclose.
Defined.

Lemma didOpen_during_the_handshake_precedes_initialized_witness :
  rootUri workspace = "file:///project/"
  /\ since workspace
       (snd (resume host (AwaitInitialize "ts" server)
               (exec (openTextDocument host "a.ts" 0 (Some server))
                  (snd (resume host
                          (AwaitMessageConnection "ts" "ws://localhost:9990" 0)
                          workspace)))))
     = [ Call 0 (onClose "ts");
         Call 0 listen;
         Call 0 (initialize "file:///project/" true);
         Call 0 (textDocumentOpened uri "typescript" "a." (Js.Num 1));
         Call 0 initialized;
         Call 0 onDiagnostics ].
Proof.
  split; [reflexivity|].
  destruct (didOpen_during_the_handshake_precedes_initialized host "file:///project/"
              "a.ts" association "ts" eq_refl eq_refl eq_refl workspace
              "ws://localhost:9990" 0 0 eq_refl) as (_ & _ & Hsince).
  vm_compute in Hsince. vm_compute. exact Hsince.
Defined.

Lemma connect_alone_witness :
  connections workspace !! "ts" = None
  /\ since workspace
       (steps host
          [ Connect "ts";
            Resume (AwaitConnectionString "ts");
            Resume (AwaitMessageConnection "ts" "ws://localhost:9990" 0);
            Resume (AwaitInitialize "ts" server) ] workspace)
     = [ NewWebSocket "ws://localhost:9990" 0;
         Call 0 (onClose "ts");
         Call 0 listen;
         Call 0 (initialize "file:///project/" true);
         Call 0 initialized;
         Call 0 onDiagnostics ].
Proof.
  assert (connections workspace !! "ts" = None) as Hnone by (by vm_compute).
  split; [exact Hnone|].
  pose proof (connect_alone host "ts" workspace Hnone) as Halone.
  vm_compute in Halone. destruct Halone as [_ Halone].
  destruct (Halone eq_refl) as (_ & Hsince & _).
  vm_compute. exact Hsince.
Defined.

Lemma other_documents_are_left_alone_witness :
  documentVersions
    (steps host
       [ Open "b.ts" 1 (Some server);
         Changes "file:///project/b.ts" server [(1, [typed "x"])];
         Close "b.ts" ] opened) !! uri
  = Some (Js.Num 1).
Proof.
  assert (Forall (fun st => documentOf opened st <> Some uri)
            [ Open "b.ts" 1 (Some server);
              Changes "file:///project/b.ts" server [(1, [typed "x"])];
              Close "b.ts" ]) as Hall.
  { repeat constructor; by vm_compute. }
  destruct (other_documents_are_left_alone host uri _ opened Hall) as [Hv _].
  rewrite Hv. by vm_compute.
Defined.

Lemma hiding_undoes_showing_witness :
  Completion.hideCompletions
    (Completion.showTriggeredCompletions [Completion.mkItem "log" None]
       (mkPosition 0 2) (editor "a."))
  = editor "a.".
Proof.
  destruct (hiding_undoes_showing [Completion.mkItem "log" None]
              (mkRange (mkPosition 0 0) (mkPosition 0 2)) (mkPosition 0 2)
              (editor "a.") eq_refl) as (_ & Htriggered & _).
  exact Htriggered.
Defined.

End ScenarioRunsFurther.

(** ** Opening and closing, there and back *)

Section ThereAndBack.

Import Eff CodeMirror Lsp Workspace.

Context (h : Host) (root path : string) (assoc : LanguageAssociation)
  (serverId : string).

Let uri := root +:+ Js.stripLeadingSlashes path.

Hypothesis Hassoc : getLanguageAssociation h uri = Some assoc.
Hypothesis Hserver : head (languageServerIds assoc) = Some serverId.
Hypothesis Htruthy : Js.truthy serverId = true.

(** X20. Opening a document and closing it leaves nothing behind: for a
    document that was not open, on an editor the workspace tracked no
    disposers for, the editor table, the version table, the disposers and
    the connections are after the close what they were before the open,
    and so are the handlers registered on the editor; what was sent is
    [didOpen] with version 1, then, after the seven disposers and the
    clearing of the five surfaces, [didClose]. *)
Theorem open_then_close_leaves_nothing_behind s c c0 editor :
  rootUri s = root ->
  connections s !! serverId = Some c0 ->
  editors s !! uri = None ->
  documentVersions s !! uri = None ->
  subscriptionDisposers s !! editor = None ->
  Forall (fun r => identityOf r < fresh s) (registrations (heap s editor)) ->
  let s1 := exec (openTextDocument h path editor (Some c)) s in
  let s2 := exec (closeTextDocument h path) s1 in
  editors s2 = editors s
  /\ documentVersions s2 = documentVersions s
  /\ subscriptionDisposers s2 = subscriptionDisposers s
  /\ connections s2 = connections s
  /\ registrations (heap s2 editor) = registrations (heap s editor)
  /\ since s s2
     = Call (conn c)
         (textDocumentOpened uri (languageId assoc) (getValue (heap s editor))
            (Js.Num 1))
       :: List.map Disposed (List.map (pair editor) (registrationsFrom (fresh s)))
       ++ [RemoveDiagnostics editor; RemoveHoverInfo editor; RemoveHighlights editor;
           HideCompletions editor; RemoveSignatureHelp editor;
           Call (conn c0) (textDocumentClosed uri)].
Proof.
  intros Hroot Hconn Hed Hver Hsub Hold s1 s2.
  assert (rootUri s1 = root) as Hroot1.
  { subst s1. unfold exec. by rewrite keepsRoot_open. }
  pose proof (open_connected h root path assoc serverId Hassoc Hserver Htruthy
                s editor c Hroot) as Hopen.
  fold uri s1 in Hopen.
  match type of Hopen with
  | _ = exec (addEventHandlers ?u ?e ?c') ?sA =>
      pose proof (addEventHandlers_fields u e c' sA) as Hfields
  end.
  rewrite <- Hopen in Hfields.
  destruct Hfields as (Ht1 & Hv1 & Heds & Hconns & Hsubs & Hregs & _).
  autorewrite with state in Ht1, Hv1, Heds, Hconns, Hsubs, Hregs. cbv beta in Ht1.
  destruct (close_tracked h root path assoc serverId Hassoc Hserver Htruthy s1 c0 editor
              (List.map (pair editor) (registrationsFrom (fresh s))) Hroot1)
    as (s2' & Hrun & Hregs2 & Hsubs2 & Ht2 & Heds2 & Hv2 & Hconns2);
    [by rewrite Hconns|rewrite Heds; apply lookup_insert_eq
    |rewrite Hsubs; apply lookup_insert_eq|].
  fold uri in Ht2, Heds2, Hv2.
  assert (s2 = s2') as -> by (subst s2; unfold exec; by rewrite Hrun).
  split; [|split; [|split; [|split; [|split]]]].
  - rewrite Heds2, Heds. by apply delete_insert_id.
  - rewrite Hv2, Hv1. by apply delete_insert_id.
  - rewrite Hsubs2, Hsubs. by apply delete_insert_id.
  - by rewrite Hconns2, Hconns.
  - rewrite Hregs2, Hregs, List.filter_app.
    rewrite filter_keeps_all, filter_none; [by rewrite app_nil_r| |].
    + intros r Hr. apply bool_decide_eq_false_2. intros Hn. apply Hn.
      apply list_elem_of_In, in_map, list_elem_of_In, Hr.
    + intros r Hr. apply bool_decide_eq_true_2.
      intros Hin%list_elem_of_In%in_map_iff. destruct Hin as (r' & [= ->] & Hr').
      apply list_elem_of_In, identityOf_registrationsFrom in Hr'.
      rewrite Forall_forall in Hold. specialize (Hold r Hr). lia.
  - apply since_app. rewrite Ht2, Ht1, <- app_assoc. reflexivity.
Qed.

End ThereAndBack.

(** ** The two tables of documents *)

Section InSync.

Import Eff CodeMirror Lsp Workspace.

Context (h : Host).

(** What a step does to the two tables: nothing, an entry for one
    document into both, the entry of one document out of both, or, for a
    delivery of a change stream, the counter of its document. *)
Lemma step_tables st s :
  (editors (step h st s) = editors s
   /\ documentVersions (step h st s) = documentVersions s)
  \/ (exists uri e v,
        editors (step h st s) = <[uri := e]> (editors s)
        /\ documentVersions (step h st s) = <[uri := v]> (documentVersions s))
  \/ (exists uri,
        editors (step h st s) = delete uri (editors s)
        /\ documentVersions (step h st s) = delete uri (documentVersions s))
  \/ (exists uri c buffered v,
        st = Changes uri c buffered
        /\ editors (step h st s) = editors s
        /\ documentVersions (step h st s) = <[uri := v]> (documentVersions s)).
Proof.
  destruct st as [path editor connected|path|path|k edits|k|uri c buffered
                 |serverId|k|serverId|editor cm]; cbn [step].
  - unfold exec, openTextDocument. run.
    destruct (getLanguageAssociation h (getDocumentUri s path)) as [assoc|]; [|by left].
    destruct (head (languageServerIds assoc)) as [serverId|]; [|by left].
    destruct (negb (Js.truthy serverId)); [by left|].
    destruct connected as [c|]; [|by left].
    right. left. exists (getDocumentUri s path), editor, (Js.Num 1).
    run. rewrite addEventHandlers_run. cbn [snd]. autorewrite with state.
    rewrite (registerAll_keeps documentVersions), (registerAll_keeps editors)
      by (intros; reflexivity).
    autorewrite with state.
    by rewrite lookup_insert_eq, insert_insert_eq.
  - unfold exec, closeTextDocument. run.
    destruct (getLanguageAssociation h (getDocumentUri s path)) as [assoc|]; [|by left].
    destruct (head (languageServerIds assoc)) as [serverId|]; [|by left].
    destruct (negb (Js.truthy serverId)); [by left|].
    destruct (connections s !! serverId) as [c|]; [|by left].
    right. right. left. exists (getDocumentUri s path).
    run.
    match goal with
    | |- context [bind ?m ?k ?s0] =>
        assert (keeps documentVersions (bind m k)) as Hv;
        [|assert (keeps editors (bind m k)) as He;
          [|rewrite (Hv s0), (He s0)]]
    end.
    + apply keeps_bind; [apply keeps_removeEventHandlers; intros; reflexivity|].
      intros _ s0. reflexivity.
    + apply keeps_bind; [apply keeps_removeEventHandlers; intros; reflexivity|].
      intros _ s0. reflexivity.
    + by autorewrite with state.
  - left. unfold exec. split.
    + assert (keeps editors (saveTextDocument h path)) as Hk
        by (unfold saveTextDocument; keeps_field).
      apply Hk.
    + assert (keeps documentVersions (saveTextDocument h path)) as Hk
        by (unfold saveTextDocument; keeps_field).
      apply Hk.
  - left. unfold exec. split.
    + assert (keeps editors (editsReceived h k edits)) as Hk
        by (unfold editsReceived, sendSaved; keeps_field).
      apply Hk.
    + assert (keeps documentVersions (editsReceived h k edits)) as Hk
        by (unfold editsReceived, sendSaved; keeps_field).
      apply Hk.
  - left. unfold exec. split.
    + assert (keeps editors (delayElapsed k)) as Hk
        by (unfold delayElapsed, sendSaved; keeps_field).
      apply Hk.
    + assert (keeps documentVersions (delayElapsed k)) as Hk
        by (unfold delayElapsed, sendSaved; keeps_field).
      apply Hk.
  - destruct buffered as [|[cm cs0] rest]; [by left|].
    right. right. right.
    destruct (onChanges_one_didChange h uri c s cm cs0 rest) as (after & _ & _ & Hv).
    eexists uri, c, _, _. split; [done|]. split; [|exact Hv].
    unfold exec. by rewrite keepsEditors_onChanges.
  - left. unfold connect. by destruct (connections s !! serverId).
  - left. unfold resume. destruct k; try done.
    by destruct (negb (Js.truthy (getConnectionString h serverId))).
  - by left.
  - by left.
Qed.

Lemma step_inSync st s : inSync s -> timely s st -> inSync (step h st s).
Proof.
  intros Hsync Htimely u.
  destruct (step_tables st s)
    as [[-> ->]|[(uri & e & v & -> & ->)|[(uri & -> & ->)
       |(uri & c & buffered & v & -> & -> & ->)]]].
  - apply Hsync.
  - rewrite !lookup_insert_is_Some. by rewrite (Hsync u).
  - rewrite !lookup_delete_is_Some. by rewrite (Hsync u).
  - cbn [timely] in Htimely. rewrite lookup_insert_is_Some.
    destruct (decide (uri = u)) as [->|Hne].
    + split; [by left|done].
    + rewrite (Hsync u). split; [by right|by intros [?|[_ ?]]].
Qed.

(** X21. The editor table and the version table always hold the same
    documents: this is so in a new workspace, and every step keeps it so
    (opening, closing, saving, connecting, a connection closing, an
    editor being edited), provided that a change stream only delivers for
    a document that is open at that time. *)
Theorem tables_stay_in_sync root markdown world sts :
  allTimely h sts (Workspace.new root markdown world) ->
  inSync (steps h sts (Workspace.new root markdown world)).
Proof.
  assert (forall s, inSync s -> allTimely h sts s -> inSync (steps h sts s)) as Hsteps.
  { induction sts as [|st sts' IH]; intros s Hsync Hall; [done|].
    destruct Hall as [Hst Hall].
    change (steps h (st :: sts') s) with (steps h sts' (step h st s)).
    apply IH; [by apply step_inSync|done]. }
  apply Hsteps. intros u. unfold Workspace.new. cbn [editors documentVersions].
  by rewrite !lookup_empty.
Qed.

End InSync.

Section ScenarioThereAndBack.

Import Eff CodeMirror Lsp Workspace Scenario.

Let uri := "file:///project/a.ts".
Let association := mkLanguageAssociation "typescript" ["ts"].

Lemma open_then_close_leaves_nothing_behind_witness :
  editors connected !! uri = None
  /\ editors (exec (closeTextDocument host "a.ts")
               (exec (openTextDocument host "a.ts" 0 (Some server)) connected))
     = editors connected.
Proof.
  assert (rootUri connected = "file:///project/") as Hroot by (by vm_compute).
  assert (connections connected !! "ts" = Some server) as Hconn by (by vm_compute).
  assert (editors connected !! uri = None) as Hed by (by vm_compute).
  assert (documentVersions connected !! uri = None) as Hver by (by vm_compute).
  assert (subscriptionDisposers connected !! 0 = None) as Hsub by (by vm_compute).
  assert (Forall (fun r => identityOf r < fresh connected)
            (registrations (heap connected 0))) as Hold by constructor.
  split; [exact Hed|].
  destruct (open_then_close_leaves_nothing_behind host "file:///project/" "a.ts"
              association "ts" eq_refl eq_refl eq_refl connected server server 0
              Hroot Hconn Hed Hver Hsub Hold) as [Heds _].
  exact Heds.
Defined.

Lemma tables_stay_in_sync_witness :
  is_Some
    (editors
       (steps host
          [ Open "a.ts" 0 (Some server);
            Changes uri server [(0, [typed "a"])];
            Close "a.ts" ]
          (Workspace.new "file:///project" true (fun _ => editor "a."))) !! uri)
  <-> is_Some
        (documentVersions
           (steps host
              [ Open "a.ts" 0 (Some server);
                Changes uri server [(0, [typed "a"])];
                Close "a.ts" ]
              (Workspace.new "file:///project" true (fun _ => editor "a."))) !! uri).
Proof.
  apply (tables_stay_in_sync host "file:///project" true (fun _ => editor "a.")
           [ Open "a.ts" 0 (Some server);
             Changes uri server [(0, [typed "a"])];
             Close "a.ts" ]).
  split; [exact I|]. split; [|split; [exact I|exact I]].
  cbn [timely]. apply (bool_decide_unpack _). by vm_compute.
Defined.

End ScenarioThereAndBack.
